(** * Adventure Works sales analysis: notebook helpers

    A shallow embedding of [src/db.py] (connection string assembly) and
    [src/plot.py] (chart helpers and the monthly insight text), and the
    properties their specification states about them.

    The helpers are thin layers over pandas, numpy and matplotlib.  The
    embedding keeps the helpers line by line and models the library calls
    they make:
    - a dataframe is an object on a heap (a [gmap] from locations to
      tables), so that [df.copy()], in-place column assignment and the
      fresh object returned by [sort_values] are distinguished;
    - matplotlib and IPython calls are recorded, in order, in a trace of
      events; a Python exception stops the call and keeps the trace;
    - what pandas leaves to its environment (the [argsort] of numpy's
      default ['quicksort'] kind, the parsing and printing of datetimes)
      is a parameter, the class [Library], with the documented contract in
      [LibraryOk].

    Scope of the data model: column labels are unique; a column is an
    int64 column, an object column of strings (with [None]) or a
    datetime64[ns] column (with [NaT]); float64 columns are outside it. *)

From Stdlib Require Import ZArith QArith DecimalString.
From stdpp Require Import base list gmap strings sorting.

Local Open Scope Z_scope.

(** ** Text helpers *)

Definition newline : string := String (Ascii.ascii_of_nat 10) "".
Definition comma : Ascii.ascii := Ascii.ascii_of_nat 44.

(** [str(z)] of a Python integer. *)
Definition str_of_Z (z : Z) : string := NilZero.string_of_int (Z.to_int z).

Fixpoint zfill (width : nat) (s : string) : string :=
  match width with
  | O => s
  | S w => if (String.length s <? width)%nat then zfill w ("0" +:+ s) else s
  end.

(** Digit grouping of the [','] format option: a comma every three digits,
    counted from the right. *)
Fixpoint group3 (digits : list Ascii.ascii) : list Ascii.ascii :=
  match digits with
  | a :: b :: c :: ((_ :: _) as rest) => a :: b :: c :: comma :: group3 rest
  | _ => digits
  end.

Definition with_commas (digits : string) : string :=
  String.string_of_list_ascii
    (reverse (group3 (reverse (String.list_ascii_of_string digits)))).

(** The double nearest to an int64 (ties to even), as the integer it
    denotes: exact up to 2^53, rounded to 53 significant bits above. *)
Definition float_of_int (z : Z) : Z :=
  let a := Z.abs z in
  if a <? 2 ^ 53 then z
  else
    let e := Z.log2 a - 52 in
    let q := Z.shiftr a e in
    let r := a - Z.shiftl q e in
    let half := Z.shiftl 1 (e - 1) in
    let q' := if (r <? half) then q
              else if (half <? r) then q + 1
              else if Z.even q then q else q + 1 in
    Z.sgn z * Z.shiftl q' e.

(** [f"{v:,.0f}"] for a float [v] that holds an integer value. *)
Definition format_comma_0f (v : Z) : string :=
  (if v <? 0 then "-" else "") +:+ with_commas (str_of_Z (Z.abs v)).

(** ** Calendar: datetime64[ns] values *)

Definition ns_per_day : Z := 86400 * 10 ^ 9.

(** The [NaT] sentinel of datetime64: the least int64. *)
Definition iNaT : Z := - 2 ^ 63.

(** Year and month of the proleptic Gregorian day [days] after 1970-01-01. *)
Definition civil_from_days (days : Z) : Z * Z * Z :=
  let z := days + 719468 in
  let era := z `div` 146097 in
  let doe := z - era * 146097 in
  let yoe := (doe - doe `div` 1460 + doe `div` 36524 - doe `div` 146096) `div` 365 in
  let y := yoe + era * 400 in
  let doy := doe - (365 * yoe + yoe `div` 4 - yoe `div` 100) in
  let mp := (5 * doy + 2) `div` 153 in
  let d := doy - (153 * mp + 2) `div` 5 + 1 in
  let m := if mp <? 10 then mp + 3 else mp - 9 in
  ((if m <=? 2 then y + 1 else y), m, d).

Definition days_from_civil (y m d : Z) : Z :=
  let y := if m <=? 2 then y - 1 else y in
  let era := y `div` 400 in
  let yoe := y - era * 400 in
  let doy := (153 * (if 2 <? m then m - 3 else m + 9) + 2) `div` 5 + d - 1 in
  let doe := yoe * 365 + yoe `div` 4 - yoe `div` 100 + doy in
  era * 146097 + doe - 719468.

(** [Timestamp.strftime("%Y-%m")]; int64 nanoseconds lie in the years
    1677 to 2262, so the year has four digits. *)
Definition strftime_Ym (t : Z) : string :=
  let '(y, m, _) := civil_from_days (t `div` ns_per_day) in
  str_of_Z y +:+ "-" +:+ zfill 2 (str_of_Z m).

(** ** Tables *)

Inductive column :=
  | IntCol (xs : list Z)
  | ObjCol (xs : list (option string))
  | DateCol (xs : list (option Z)).

(** A scalar taken out of a column. *)
Inductive cell :=
  | Int (z : Z)
  | Str (s : string)
  | PyNone
  | Timestamp (t : Z)
  | NaT.

Definition col_cells (c : column) : list cell :=
  match c with
  | IntCol xs => Int <$> xs
  | ObjCol xs => (λ o, from_option Str PyNone o) <$> xs
  | DateCol xs => (λ o, from_option Timestamp NaT o) <$> xs
  end.

Definition col_length (c : column) : nat :=
  match c with
  | IntCol xs => length xs
  | ObjCol xs => length xs
  | DateCol xs => length xs
  end.

(** A dataframe: the row labels and the columns by name. *)
Record DataFrame := {
  index : list Z;
  columns : gmap string column;
}.

(** A column taken out of a frame keeps the frame's row labels. *)
Record Series := {
  s_index : list Z;
  s_values : column;
}.

Definition nrows (t : DataFrame) : nat := length (index t).

Definition wf_frame (t : DataFrame) : Prop :=
  ∀ name c, columns t !! name = Some c → col_length c = nrows t.

#[global] Instance col_length_eq_dec c n : Decision (col_length c = n) := _.

#[global] Instance wf_frame_dec t : Decision (wf_frame t) :=
  map_Forall_dec (λ _ c, col_length c = nrows t) (columns t).

Definition RangeIndex (n : nat) : list Z := Z.of_nat <$> seq 0 n.

(** numpy's [a[p]]: the elements of [a] at the positions [p], in the order
    of [p] (positions are always in range where the code indexes). *)
Definition gather {A} (a : list A) (p : list nat) : list A :=
  omap (λ i, a !! i) p.

Definition gather_col (c : column) (p : list nat) : column :=
  match c with
  | IntCol xs => IntCol (gather xs p)
  | ObjCol xs => ObjCol (gather xs p)
  | DateCol xs => DateCol (gather xs p)
  end.

(** [DataFrame.take]: the rows at the positions [p], with their labels. *)
Definition take_rows (p : list nat) (t : DataFrame) : DataFrame :=
  {| index := gather (index t) p;
     columns := (λ c, gather_col c p) <$> columns t |}.

(** ** What the libraries leave open *)

Class Library := {
  (** [ndarray.argsort(kind="quicksort")] under the order [leb] *)
  np_argsort : ∀ K : Type, (K → K → bool) → list K → list nat;
  (** [pd.to_datetime] on strings: [None] when it raises *)
  parse_datetimes : list (option string) → option (list (option Z));
  (** [astype(str)] on a datetime64 column *)
  datetime_astype_str : list (option Z) → list string;
}.
Arguments np_argsort {_ _} _ _.

Definition leb_rel {K} (leb : K → K → bool) : relation K := λ a b, leb a b = true.

Class LibraryOk (L : Library) := {
  np_argsort_perm : ∀ K (leb : K → K → bool) (l : list K),
    np_argsort leb l ≡ₚ seq 0 (length l);
  np_argsort_sorted : ∀ K (leb : K → K → bool) (l : list K),
    Total (leb_rel leb) → Transitive (leb_rel leb) →
    StronglySorted (leb_rel leb) (gather l (np_argsort leb l));
  parse_datetimes_length : ∀ l r,
    parse_datetimes l = Some r → length r = length l;
}.

(** An [argsort] is stable when elements that compare equal keep their
    order.  numpy promises it for the kinds ['stable'] and ['mergesort']
    only. *)
Definition ArgsortStable (L : Library) : Prop :=
  ∀ K (leb : K → K → bool) (l : list K) (a b i j : nat) (x y : K),
    Total (leb_rel leb) → Transitive (leb_rel leb) →
    np_argsort leb l !! a = Some i → np_argsort leb l !! b = Some j →
    l !! i = Some x → l !! j = Some y →
    leb x y = true → leb y x = true → (i < j)%nat → (a < b)%nat.

(** ** Exceptions, rendering events and the interpreter state *)

Inductive exn :=
  | KeyError (key : string)
  | ValueError (msg : string)
  | TypeError (msg : string)
  | IndexError (msg : string)
  | AttributeError (msg : string)
  | NameError (msg : string).

(** The calls into matplotlib and IPython, with the data they receive.
    [plt.gca()] only returns the axes of the current figure and is not
    recorded; matplotlib's own checks of its arguments are not modelled. *)
Inductive event :=
  | plt_figure (figsize : Z * Z)
  | ax_bar (x : list string) (height : column)
  | ax_barh (y : list string) (width : column)
  | ax_bar_at (x : list Q) (height : column) (width : Q) (label : string)
  | ax_invert_yaxis
  | plt_plot (x y : column) (marker : string)
  | ax_scatter (x y : column) (alpha : Q)
  | ax_set_title (s : string)
  | ax_set_xlabel (s : string)
  | ax_set_ylabel (s : string)
  | ax_set_xticks (ticks : list Q)
  | ax_set_xticklabels (labels : list string) (rotation : Z)
  | ax_set_major_locator (month_interval : Z)
  | ax_set_major_formatter (fmt : string)
  | plt_xticks (rotation : Z)
  | ax_legend (title : option string)
  | plt_tight_layout
  | plt_show
  | display_markdown (text : string).

Definition loc := nat.

Record state := {
  heap : gmap loc DataFrame;
  trace : list event;
}.

Inductive outcome (A : Type) :=
  | Return (a : A)
  | Raise (e : exn).
Arguments Return {A} a.
Arguments Raise {A} e.

(** A Python statement: it reads and updates the state and either
    yields a value or raises. *)
Definition M (A : Type) : Type := state → outcome A * state.

Definition ret {A} (a : A) : M A := λ s, (Return a, s).
Definition raise {A} (e : exn) : M A := λ s, (Raise e, s).
Definition bind {A B} (m : M A) (k : A → M B) : M B :=
  λ s, match m s with
       | (Return a, s') => k a s'
       | (Raise e, s') => (Raise e, s')
       end.

#[global] Instance M_ret : MRet M := @ret.
#[global] Instance M_bind : MBind M := λ A B k m, bind m k.

Definition emit (e : event) : M unit :=
  λ s, (Return tt, {| heap := heap s; trace := trace s ++ [e] |}).

Definition deref (d : loc) : M DataFrame :=
  λ s, match heap s !! d with
       | Some t => (Return t, s)
       | None => (Raise (NameError "unbound dataframe"), s)
       end.

Definition alloc (t : DataFrame) : M loc :=
  λ s, let l := fresh (dom (heap s)) in
       (Return l, {| heap := <[l := t]> (heap s); trace := trace s |}).

Definition store (d : loc) (t : DataFrame) : M unit :=
  λ s, (Return tt, {| heap := <[d := t]> (heap s); trace := trace s |}).

(** [for i, x in enumerate(xs, start): body] *)
Fixpoint for_enumerate {A} (start : nat) (xs : list A) (body : nat → A → M unit)
  : M unit :=
  match xs with
  | [] => ret tt
  | x :: xs' => body start x ;; for_enumerate (S start) xs' body
  end.

(** ** pandas *)

Section pandas.
Context {L : Library}.

(** [df.copy()]: a new object with the same data. *)
Definition copy (df : loc) : M loc :=
  t ← deref df; alloc t.

(** [d[col]] *)
Definition getitem (d : loc) (col : string) : M Series :=
  t ← deref d ;
  match columns t !! col with
  | Some c => ret {| s_index := index t; s_values := c |}
  | None => raise (KeyError col)
  end.

(** [d[col] = values]: the object behind [d] is updated in place. *)
Definition setitem (d : loc) (col : string) (values : Series) : M unit :=
  t ← deref d ;
  store d {| index := index t; columns := <[col := s_values values]> (columns t) |}.

(** [Series.astype(str)] *)
Definition astype_str (s : Series) : list string :=
  match s_values s with
  | IntCol xs => str_of_Z <$> xs
  | ObjCol xs => (λ o, default "None" o) <$> xs
  | DateCol xs => datetime_astype_str xs
  end.

(** [pd.to_datetime(series)]: integers are nanoseconds since the epoch,
    strings are parsed, datetimes are kept. *)
Definition coerce_dates (c : column) : option (list (option Z)) :=
  match c with
  | IntCol xs => Some ((λ z, if decide (z = iNaT) then None else Some z) <$> xs)
  | ObjCol xs => parse_datetimes xs
  | DateCol xs => Some xs
  end.

Definition to_datetime (s : Series) : M Series :=
  match coerce_dates (s_values s) with
  | Some ts => mret {| s_index := s_index s; s_values := DateCol ts |}
  | None => raise (ValueError "time data does not match a datetime format")
  end.

(** The elements of a list with their positions. *)
Definition enumerate {A} (l : list A) : list (nat * A) := zip (seq 0 (length l)) l.

(** The present values with their positions, and the positions of the
    missing ones. *)
Definition present {K} (rows : list (nat * option K)) : list (nat * K) :=
  omap (λ r, pair r.1 <$> r.2) rows.

Definition missing {K} (rows : list (nat * option K)) : list nat :=
  omap (λ r, if r.2 is None then Some r.1 else None) rows.

(** [pandas.core.sorting.nargsort] with [na_position="last"]: missing
    values are set aside, the rest goes through [argsort] (front to back
    reversed before and after when descending), missing values follow. *)
Definition nargsort {K} (leb : K → K → bool) (items : list (option K))
    (ascending : bool) : list nat :=
  let rows := enumerate items in
  let non_nan := if ascending then present rows else reverse (present rows) in
  let indexer := gather non_nan.*1 (np_argsort leb non_nan.*2) in
  let indexer := if ascending then indexer else reverse indexer in
  indexer ++ missing rows.

Definition col_nargsort (c : column) (ascending : bool) : list nat :=
  match c with
  | IntCol xs => nargsort Z.leb (Some <$> xs) ascending
  | ObjCol xs => nargsort String.leb xs ascending
  | DateCol xs => nargsort Z.leb xs ascending
  end.

(** [d.sort_values(by, ascending=ascending)]: a new, reordered frame. *)
Definition sort_values (d : loc) (by_ : string) (ascending : bool) : M loc :=
  t ← deref d ;
  match columns t !! by_ with
  | Some c => alloc (take_rows (col_nargsort c ascending) t)
  | None => raise (KeyError by_)
  end.

(** First position of a greatest (least) present value. *)
Fixpoint argbest {K} (better : K → K → bool) (i : nat) (best : option (nat * K))
    (xs : list (option K)) : option nat :=
  match xs with
  | [] => fst <$> best
  | None :: xs' => argbest better (S i) best xs'
  | Some x :: xs' =>
      match best with
      | Some (_, b) =>
          argbest better (S i) (if better x b then Some (i, x) else best) xs'
      | None => argbest better (S i) (Some (i, x)) xs'
      end
  end.

Definition col_argbest (want_max : bool) (c : column) : M nat :=
  let gt := if want_max then Z.gtb else Z.ltb in
  let pos :=
    match c with
    | IntCol xs => Some (argbest gt 0 None (Some <$> xs))
    | DateCol xs => Some (argbest gt 0 None xs)
    | ObjCol _ => None
    end in
  match pos with
  | None => raise (TypeError "reduction not allowed for this dtype")
  | Some None => raise (ValueError "attempt to get argmax of an empty sequence")
  | Some (Some i) => ret i
  end.

(** [Series.idxmax()] and [Series.idxmin()]: the row label at the first
    extreme value. *)
Definition idx_extreme (want_max : bool) (s : Series) : M Z :=
  i ← col_argbest want_max (s_values s) ;
  match s_index s !! i with
  | Some label => ret label
  | None => raise (IndexError "index out of bounds")
  end.

Definition idxmax := idx_extreme true.
Definition idxmin := idx_extreme false.

(** The row at a position, as a mapping from column names to scalars. *)
Definition row_at (t : DataFrame) (i : nat) : gmap string cell :=
  omap (λ c, col_cells c !! i) (columns t).

(** [d.loc[label]] is the row carrying the label, or a frame of all such
    rows when the label is not unique. *)
Inductive loc_result :=
  | RowOf (row : gmap string cell)
  | RowsOf (positions : list nat).

Definition positions_of (label : Z) (idx : list Z) : list nat :=
  omap (λ r, if decide (r.2 = label) then Some r.1 else None) (enumerate idx).

Definition loc_ (d : loc) (label : Z) : M loc_result :=
  t ← deref d ;
  match positions_of label (index t) with
  | [] => raise (KeyError (str_of_Z label))
  | [i] => ret (RowOf (row_at t i))
  | ps => ret (RowsOf ps)
  end.

(** [d.iloc[i]] with Python's negative positions. *)
Definition iloc (d : loc) (i : Z) : M (gmap string cell) :=
  t ← deref d ;
  let n := Z.of_nat (nrows t) in
  if decide (0 ≤ i < n) then ret (row_at t (Z.to_nat i))
  else if decide (- n ≤ i < 0) then ret (row_at t (Z.to_nat (n + i)))
  else raise (IndexError "single positional indexer is out-of-bounds").

(** [row[col]] *)
Definition row_getitem (row : gmap string cell) (col : string) : M cell :=
  match row !! col with
  | Some v => ret v
  | None => raise (KeyError col)
  end.

(** [float(v)] *)
Definition float_ (v : cell) : M Z :=
  match v with
  | Int z => ret (float_of_int z)
  | _ => raise (TypeError "float() argument must be a string or a real number")
  end.

End pandas.

(** ** src/plot.py *)

Section plot.
Context {L : Library}.

(** Truth value of an [Optional[str]]: [None] and [""] are false. *)
Definition truthy (o : option string) : bool :=
  match o with
  | Some s => negb (String.eqb s "")
  | None => false
  end.

(** [label or fallback] *)
Definition or_else (o : option string) (fallback : string) : string :=
  match o with
  | Some s => if String.eqb s "" then fallback else s
  | None => fallback
  end.

(** Vertical bar chart. *)
Definition bar_vertical (df : loc) (x y title : string)
    (xlabel ylabel sort_by : option string) (ascending : bool)
    (figsize : Z * Z) (rotate_x : Z) : M unit :=
  d ← copy df;
  d ← (if truthy sort_by
       then sort_values d (default "" sort_by) ascending
       else mret d);
  emit (plt_figure figsize);;
  sx ← getitem d x;
  sy ← getitem d y;
  emit (ax_bar (astype_str sx) (s_values sy));;
  emit (ax_set_title title);;
  emit (ax_set_xlabel (or_else xlabel x));;
  emit (ax_set_ylabel (or_else ylabel y));;
  emit (plt_xticks rotate_x);;
  emit plt_tight_layout;;
  emit plt_show.

(** Horizontal bar chart (largest at top by default). *)
Definition bar_horizontal (df : loc) (x y title : string)
    (xlabel ylabel : option string) (sort_desc : bool) (figsize : Z * Z)
    : M unit :=
  d ← copy df;
  d ← sort_values d x (negb sort_desc);
  emit (plt_figure figsize);;
  sy ← getitem d y;
  sx ← getitem d x;
  emit (ax_barh (astype_str sy) (s_values sx));;
  emit ax_invert_yaxis;;
  emit (ax_set_title title);;
  emit (ax_set_xlabel (or_else xlabel x));;
  emit (ax_set_ylabel (or_else ylabel y));;
  emit plt_tight_layout;;
  emit plt_show.

(** Line plot optimized for monthly time series. *)
Definition line_plot_monthly (df : loc) (date_col value_col title : string)
    (xlabel ylabel : string) (month_interval : Z) (figsize : Z * Z)
    (marker : string) : M unit :=
  d ← copy df;
  dates ← getitem d date_col;
  dates ← to_datetime dates;
  setitem d date_col dates;;
  d ← sort_values d date_col true;
  emit (plt_figure figsize);;
  sx ← getitem d date_col;
  sy ← getitem d value_col;
  emit (plt_plot (s_values sx) (s_values sy) marker);;
  emit (ax_set_title title);;
  emit (ax_set_xlabel xlabel);;
  emit (ax_set_ylabel ylabel);;
  emit (ax_set_major_locator month_interval);;
  emit (ax_set_major_formatter "%Y-%m");;
  emit (plt_xticks 45);;
  emit plt_tight_layout;;
  emit plt_show.

(** [np.arange(n)], and the float arithmetic on bar positions done
    exactly, over the rationals. *)
Definition arange (n : nat) : list Q := (λ i, inject_Z (Z.of_nat i)) <$> seq 0 n.

Definition bar_width (n : nat) : Q := Qred ((8 # 10) / inject_Z (Z.max (Z.of_nat n) 1)).

(** Grouped bars when data is wide (one row per x). *)
Definition grouped_bar_wide (df : loc) (x : string) (y_cols : list string)
    (title : string) (xlabel : option string) (ylabel legend_title : string)
    (figsize : Z * Z) (rotate_x : Z) (y_col_labels : option (list string))
    : M unit :=
  d ← copy df;
  sx ← getitem d x;
  let labels := astype_str sx in
  let n := length y_cols in
  let legend_labels := default y_cols y_col_labels in
  if negb (length legend_labels =? n)%nat
  then raise (ValueError "y_col_labels must have the same length as y_cols")
  else
    let x_idx := arange (length labels) in
    let width := bar_width n in
    emit (plt_figure figsize);;
    for_enumerate 0 (zip y_cols legend_labels) (λ i col_lab,
      sc ← getitem d col_lab.1;
      emit (ax_bar_at ((λ q, Qred (q + inject_Z (Z.of_nat i) * width)%Q) <$> x_idx)
                      (s_values sc) width col_lab.2));;
    emit (ax_set_xticks
            ((λ q, Qred (q + width * inject_Z (Z.of_nat n - 1) / 2)%Q) <$> x_idx));;
    emit (ax_set_xticklabels labels rotate_x);;
    emit (ax_set_title title);;
    emit (ax_set_xlabel (or_else xlabel x));;
    emit (ax_set_ylabel ylabel);;
    emit (ax_legend (if String.eqb legend_title "" then None else Some legend_title));;
    emit plt_tight_layout;;
    emit plt_show.

(** Simple scatter plot. *)
Definition scatter_plot (df : loc) (x y title : string)
    (xlabel ylabel : option string) (figsize : Z * Z) (alpha : Q) : M unit :=
  emit (plt_figure figsize);;
  sx ← getitem df x;
  sy ← getitem df y;
  emit (ax_scatter (s_values sx) (s_values sy) alpha);;
  emit (ax_set_title title);;
  emit (ax_set_xlabel (or_else xlabel x));;
  emit (ax_set_ylabel (or_else ylabel y));;
  emit plt_tight_layout;;
  emit plt_show.

(** [_fmt_month(v)]: [pd.to_datetime(v).strftime("%Y-%m")] *)
Definition _fmt_month (v : cell) : M string :=
  match v with
  | Timestamp t => mret (strftime_Ym t)
  | Int z =>
      if decide (z = iNaT) then raise (ValueError "NaTType does not support strftime")
      else mret (strftime_Ym z)
  | Str s =>
      match parse_datetimes [Some s] with
      | Some [Some t] => mret (strftime_Ym t)
      | Some _ => raise (ValueError "NaTType does not support strftime")
      | None => raise (ValueError "time data does not match a datetime format")
      end
  | PyNone | NaT => raise (ValueError "NaTType does not support strftime")
  end.

(** [_fmt_month(r[col])] and [float(r[col])] for the result [r] of
    [d.loc[label]]; when [r] is a frame, [r[col]] is a Series, which has
    no [strftime]. *)
Definition loc_fmt_month (r : loc_result) (col : string) : M string :=
  match r with
  | RowOf row => v ← row_getitem row col; _fmt_month v
  | RowsOf _ => raise (AttributeError "'Series' object has no attribute 'strftime'")
  end.

Definition loc_float (r : loc_result) (col : string) : M Z :=
  match r with
  | RowOf row => v ← row_getitem row col; float_ v
  | RowsOf _ => raise (TypeError "cannot convert the series to float")
  end.

(** The text of the insight paragraph. *)
Definition insight_text (direction start_month : string) (start_val : Z)
    (end_month : string) (end_val : Z) (peak_month : string) (peak_val : Z)
    (low_month : string) (low_val : Z) : string :=
  "**Insight:** The overall monthly sales trend is **" +:+ direction +:+
  "** from **" +:+ start_month +:+ "** (" +:+ format_comma_0f start_val +:+
  ") to **" +:+ end_month +:+ "** (" +:+ format_comma_0f end_val +:+ ").  " +:+
  newline +:+
  "- **Highest month:** **" +:+ peak_month +:+ "** (" +:+
  format_comma_0f peak_val +:+ ")  " +:+ newline +:+
  "- **Lowest month:** **" +:+ low_month +:+ "** (" +:+
  format_comma_0f low_val +:+ ")".

(** Display a short insight paragraph for monthly trend charts. *)
Definition insight_monthly_trend (df : loc) (date_col value_col : string)
    : M unit :=
  d ← copy df;
  dates ← getitem d date_col;
  dates ← to_datetime dates;
  setitem d date_col dates;;
  values ← getitem d value_col;
  label ← idxmax values;
  peak ← loc_ d label;
  values ← getitem d value_col;
  label ← idxmin values;
  low ← loc_ d label;
  first ← iloc d 0;
  v ← row_getitem first date_col;
  start_month ← _fmt_month v;
  last ← iloc d (-1);
  v ← row_getitem last date_col;
  end_month ← _fmt_month v;
  first ← iloc d 0;
  v ← row_getitem first value_col;
  start_val ← float_ v;
  last ← iloc d (-1);
  v ← row_getitem last value_col;
  end_val ← float_ v;
  let direction := if start_val <=? end_val then "upward" else "downward" in
  peak_month ← loc_fmt_month peak date_col;
  peak_val ← loc_float peak value_col;
  low_month ← loc_fmt_month low date_col;
  low_val ← loc_float low value_col;
  emit (display_markdown
          (insight_text direction start_month start_val end_month end_val
             peak_month peak_val low_month low_val)).

End plot.

(** ** src/db.py *)

Module db.

(** The process environment, [os.environ]. *)
Abbreviation environ := (gmap string string).

(** [load_dotenv()] with its default [override=False]: the assignments
    of the [.env] file (none when there is no file; a key without a value
    is skipped) are added for the variables that are not set already. *)
Definition load_dotenv (dotenv : gmap string (option string)) (env : environ)
    : environ :=
  env ∪ omap id dotenv.

(** [os.getenv(key, default)] *)
Definition getenv (env : environ) (key fallback : string) : string :=
  default fallback (env !! key).

Definition default_server : string := "localhost\SQL2025".
Definition default_database : string := "AdventureWorks2025".

Definition odbc_str (server database : string) : string :=
  "DRIVER={ODBC Driver 18 for SQL Server};" +:+
  "SERVER=" +:+ server +:+ ";" +:+
  "DATABASE=" +:+ database +:+ ";" +:+
  "Trusted_Connection=yes;" +:+
  "TrustServerCertificate=yes;".

(** [urllib.parse.quote_plus] on the bytes of a string. *)
Definition hex_digit (n : N) : Ascii.ascii :=
  Ascii.ascii_of_N (if (n <? 10)%N then 48 + n else 55 + n)%N.

Definition unreserved (c : Ascii.ascii) : bool :=
  let n := Ascii.N_of_ascii c in
  ((48 <=? n) && (n <=? 57) || (65 <=? n) && (n <=? 90) ||
   (97 <=? n) && (n <=? 122) ||
   (n =? 95) || (n =? 46) || (n =? 45) || (n =? 126))%N.

Fixpoint quote_plus (s : string) : string :=
  match s with
  | EmptyString => EmptyString
  | String c rest =>
      let n := Ascii.N_of_ascii c in
      if unreserved c then String c (quote_plus rest)
      else if (n =? 32)%N then String (Ascii.ascii_of_nat 43) (quote_plus rest)
      else String (Ascii.ascii_of_nat 37)
             (String (hex_digit (n / 16)) (String (hex_digit (n mod 16))
                (quote_plus rest)))
  end.

(** A SQLAlchemy engine, as far as this module decides it: its URL. *)
Record Engine := { url : string }.

Definition create_engine (u : string) : Engine := {| url := u |}.

(** The connection string [make_engine] assembles, from the environment
    as [load_dotenv] leaves it. *)
Definition connection_string (dotenv : gmap string (option string))
    (env : environ) : string :=
  let env := load_dotenv dotenv env in
  let server := getenv env "SQL_SERVER" default_server in
  let database := getenv env "SQL_DATABASE" default_database in
  odbc_str server database.

(** Create a SQLAlchemy engine for SQL Server using Windows
    authentication.  The environment is returned as well: [load_dotenv]
    updates it. *)
Definition make_engine (dotenv : gmap string (option string)) (env : environ)
    : Engine * environ :=
  let env := load_dotenv dotenv env in
  let server := getenv env "SQL_SERVER" default_server in
  let database := getenv env "SQL_DATABASE" default_database in
  (create_engine ("mssql+pyodbc:///?odbc_connect=" +:+
                  quote_plus (odbc_str server database)), env).

(** [read_sql] hands the query to [pd.read_sql] on the shared engine; what
    comes back is the answer of the database server, which is outside this
    development. *)

(** [s] occurs in [t]. *)
Definition contains (t s : string) : Prop := ∃ a b, t = a +:+ s +:+ b.

End db.

(** ** Vocabulary of the properties *)

Definition direction {K} (ascending : bool) (R : relation K) : relation K :=
  if ascending then R else flip R.

(** Present values in order, missing values after them. *)
Definition sorted_na_last {K} (R : relation K) (l : list (option K)) : Prop :=
  ∃ ks m, l = (Some <$> ks) ++ replicate m None ∧ StronglySorted R ks.

(** A column is in the order [sort_values] asks for. *)
Definition col_sorted (ascending : bool) (c : column) : Prop :=
  match c with
  | IntCol xs => StronglySorted (direction ascending Z.le) xs
  | ObjCol xs => sorted_na_last (direction ascending String.le) xs
  | DateCol xs => sorted_na_last (direction ascending Z.le) xs
  end.

(** The reordering [p] of the rows keeps rows with equal keys in their
    input order. *)
Definition stable_order {K} (keys : list (option K)) (p : list nat) : Prop :=
  ∀ a b i j, p !! a = Some i → p !! b = Some j →
    (i < length keys)%nat → (j < length keys)%nat →
    keys !! i = keys !! j → (i < j)%nat → (a < b)%nat.

Definition col_stable_order (key : column) (p : list nat) : Prop :=
  match key with
  | IntCol xs => stable_order (Some <$> xs) p
  | ObjCol xs => stable_order xs p
  | DateCol xs => stable_order xs p
  end.

(** The column [c] of a frame [t], reordered by [p], as a Series. *)
Definition series_at (t : DataFrame) (c : column) (p : list nat) : Series :=
  {| s_index := gather (index t) p; s_values := gather_col c p |}.

(** The events a call added to the trace. *)
Definition emitted (before after : state) (evs : list event) : Prop :=
  trace after = trace before ++ evs.

(** The optional sort of the two bar charts is stable: the bars are drawn
    in an order [p] of the rows that keeps rows with equal sort keys in
    their input order. *)
Definition bar_sort_stable (L : Library) : Prop :=
  ∀ s df t,
    heap s !! df = Some t →
    wf_frame t →
    (∀ x y title xlabel ylabel sort_by ascending figsize rotate_x key cx cy,
       sort_by ≠ "" →
       columns t !! sort_by = Some key →
       columns t !! x = Some cx →
       columns t !! y = Some cy →
       ∃ p evs,
         p ≡ₚ seq 0 (nrows t) ∧
         col_stable_order key p ∧
         emitted s
           (bar_vertical df x y title xlabel ylabel (Some sort_by) ascending
              figsize rotate_x s).2 evs ∧
         ax_bar (astype_str (series_at t cx p)) (gather_col cy p) ∈ evs) ∧
    (∀ x y title xlabel ylabel sort_desc figsize key cy,
       columns t !! x = Some key →
       columns t !! y = Some cy →
       ∃ p evs,
         p ≡ₚ seq 0 (nrows t) ∧
         col_stable_order key p ∧
         emitted s
           (bar_horizontal df x y title xlabel ylabel sort_desc figsize s).2
           evs ∧
         ax_barh (astype_str (series_at t cy p)) (gather_col key p) ∈ evs).

(** Nothing reached the screen: no figure was shown, no text displayed. *)
Definition nothing_shown (evs : list event) : Prop :=
  (plt_show ∉ evs) ∧ (∀ text, display_markdown text ∉ evs).

(** The call raised [KeyError] for one of the columns [cols] that the
    table [t] lacks, and showed nothing. *)
Definition fails_with_KeyError {A} (t : DataFrame) (cols : list string)
    (before : state) (r : outcome A * state) : Prop :=
  ∃ k evs,
    r.1 = Raise (KeyError k) ∧ k ∈ cols ∧ columns t !! k = None ∧
    emitted before r.2 evs ∧ nothing_shown evs.

(** The call raised [ValueError] before it drew anything. *)
Definition fails_with_ValueError {A} (before : state) (r : outcome A * state)
    : Prop :=
  ∃ msg, r.1 = Raise (ValueError msg) ∧ emitted before r.2 [].

(** The table lacks one of the columns. *)
Definition lacks (t : DataFrame) (cols : list string) : Prop :=
  ∃ k, k ∈ cols ∧ columns t !! k = None.

(** The checks that come before the lookup of a missing column: the
    count of the legend labels, once [x] is found, and the coercion of
    the date column. *)
Definition label_count_differs (t : DataFrame) (x : string)
    (y_cols : list string) (y_col_labels : option (list string)) : Prop :=
  is_Some (columns t !! x) ∧ length (default y_cols y_col_labels) ≠ length y_cols.

Definition dates_unreadable {L : Library} (t : DataFrame) (date_col : string)
    : Prop :=
  ∃ c, columns t !! date_col = Some c ∧ coerce_dates c = None.

(** The call leaves every dataframe that existed before it as it was. *)
Definition frame_preserved (before after : state) : Prop :=
  ∀ l t, heap before !! l = Some t → heap after !! l = Some t.

(** Hoare triples for statements: [Q] after a normal return, [E] after
    an exception. *)
Definition hoare {A} (P : state → Prop) (m : M A) (Q : A → state → Prop)
    (E : exn → state → Prop) : Prop :=
  ∀ s, P s →
    match m s with
    | (Return a, s') => Q a s'
    | (Raise e, s') => E e s'
    end.

(** [v], at position [i], is the first greatest value of [vals] in the
    order of [key] ([key := id] for the maximum, [key := Z.opp] for the
    minimum). *)
Definition first_extreme (key : Z → Z) (vals : list Z) (i : nat) (v : Z) : Prop :=
  vals !! i = Some v ∧
  (∀ w, w ∈ vals → key w ≤ key v) ∧
  (∀ j w, (j < i)%nat → vals !! j = Some w → key w < key v).

(** The dataframes of [h0] are all still there, unchanged. *)
Definition keeps (h0 : gmap loc DataFrame) (s : state) : Prop := h0 ⊆ heap s.

(** A statement that keeps [h0], whatever its outcome, and returns values
    that satisfy [φ]. *)
Definition framed {A} (h0 : gmap loc DataFrame) (m : M A) (φ : A → Prop) : Prop :=
  hoare (keeps h0) m (λ a s, keeps h0 s ∧ φ a) (λ _, keeps h0).

(** ** Two libraries that meet the contract

    Both sort by insertion; they differ in where equal keys go. *)

Fixpoint insert_by {A} (stop : A → A → bool) (x : A) (l : list A) : list A :=
  match l with
  | [] => [x]
  | y :: l' => if stop x y then x :: l else y :: insert_by stop x l'
  end.

Definition insertion_sort {A} (stop : A → A → bool) (l : list A) : list A :=
  foldr (insert_by stop) [] l.

(** The order of the rows, key and input position, after a sort that
    keeps ties in input order. *)
Definition tie_order {K} (leb : K → K → bool) (r1 r2 : nat * K) : Prop :=
  leb r1.2 r2.2 = true ∧ (leb r2.2 r1.2 = true → (r1.1 < r2.1)%nat).

(** Equal keys stay in input order. *)
Definition insertion_argsort (K : Type) (leb : K → K → bool) (l : list K)
    : list nat :=
  (insertion_sort (λ a b, leb a.2 b.2) (enumerate l)).*1.

(** Equal keys come out in reverse input order. *)
Definition tie_reversing_argsort (K : Type) (leb : K → K → bool) (l : list K)
    : list nat :=
  (insertion_sort (λ a b, negb (leb b.2 a.2)) (enumerate l)).*1.

(** Dates written [YYYY-MM-DD]. *)
Definition digit (c : Ascii.ascii) : option Z :=
  let n := Z.of_N (Ascii.N_of_ascii c) in
  if (48 <=? n) && (n <=? 57) then Some (n - 48) else None.

Fixpoint number (acc : Z) (cs : list Ascii.ascii) : option Z :=
  match cs with
  | [] => Some acc
  | c :: cs' => (d ← digit c; number (10 * acc + d) cs')
  end.

Definition parse_iso_date (s : string) : option Z :=
  let dash := Ascii.ascii_of_nat 45 in
  match String.list_ascii_of_string s with
  | [y1; y2; y3; y4; s1; m1; m2; s2; d1; d2] =>
      if Ascii.eqb s1 dash && Ascii.eqb s2 dash then
        y ← number 0 [y1; y2; y3; y4];
        m ← number 0 [m1; m2];
        d ← number 0 [d1; d2];
        Some (days_from_civil y m d * ns_per_day)
      else None
  | _ => None
  end.

Definition parse_iso_dates (l : list (option string)) : option (list (option Z)) :=
  mapM (λ o, match o with
             | Some s => Some <$> parse_iso_date s
             | None => Some None
             end) l.

Definition iso_date (t : Z) : string :=
  let '(y, m, d) := civil_from_days (t `div` ns_per_day) in
  str_of_Z y +:+ "-" +:+ zfill 2 (str_of_Z m) +:+ "-" +:+ zfill 2 (str_of_Z d).

Definition iso_dates (l : list (option Z)) : list string :=
  (λ o, from_option iso_date "NaT" o) <$> l.

Definition stable_library : Library :=
  {| np_argsort := insertion_argsort;
     parse_datetimes := parse_iso_dates;
     datetime_astype_str := iso_dates |}.

Definition tie_reversing_library : Library :=
  {| np_argsort := tie_reversing_argsort;
     parse_datetimes := parse_iso_dates;
     datetime_astype_str := iso_dates |}.

(** ** Sample data *)

Definition month_start (y m : Z) : Z := days_from_civil y m 1 * ns_per_day.

(** Four consecutive months, one value each. *)
Definition monthly_sales (start_year start_month : Z) : DataFrame :=
  {| index := RangeIndex 4;
     columns :=
       {[ "MonthStart" :=
            DateCol ((λ k, Some (month_start start_year (start_month + k)))
                       <$> [0; 1; 2; 3]);
          "TotalSales" := IntCol [100; 150; 90; 200] ]} |}.

(** The same months, latest first. *)
Definition sales_latest_first : DataFrame :=
  {| index := RangeIndex 3;
     columns :=
       {[ "MonthStart" :=
            DateCol [Some (month_start 2024 3); Some (month_start 2024 2);
                     Some (month_start 2024 1)];
          "TotalSales" := IntCol [300; 500; 100] ]} |}.

(** Two territories with the same sales. *)
Definition tied_sales : DataFrame :=
  {| index := RangeIndex 3;
     columns :=
       {[ "Territory" := ObjCol [Some "Canada"; Some "France"; Some "Germany"];
          "Sales" := IntCol [70; 70; 90];
          "Orders" := IntCol [5; 3; 4] ]} |}.

Definition state_with (df : loc) (t : DataFrame) : state :=
  {| heap := {[ df := t ]}; trace := [] |}.


(** ** Reading the engine URL back *)

(** [urllib.parse.unquote_plus], with which the query of a URL is read
    back: ['+'] is a space, [%XX] the byte with that hexadecimal code, and
    a ['%'] that no two hexadecimal digits follow stays as it is. *)
Definition hex_value (c : Ascii.ascii) : option N :=
  let n := Ascii.N_of_ascii c in
  if ((48 <=? n) && (n <=? 57))%N then Some (n - 48)%N
  else if ((65 <=? n) && (n <=? 70))%N then Some (n - 55)%N
  else if ((97 <=? n) && (n <=? 102))%N then Some (n - 87)%N
  else None.

Fixpoint unquote_plus (s : string) : string :=
  match s with
  | EmptyString => EmptyString
  | String c rest =>
      let n := Ascii.N_of_ascii c in
      if (n =? 43)%N then String (Ascii.ascii_of_nat 32) (unquote_plus rest)
      else if (n =? 37)%N then
        match rest with
        | String h (String l rest') =>
            match hex_value h, hex_value l with
            | Some a, Some b =>
                String (Ascii.ascii_of_N (16 * a + b)) (unquote_plus rest')
            | _, _ => String c (unquote_plus rest)
            end
        | _ => String c (unquote_plus rest)
        end
      else String c (unquote_plus rest)
  end.

(** Characters that stand for themselves in a URL query, and the two that
    [quote_plus] writes besides. *)
Definition url_safe (c : Ascii.ascii) : bool :=
  let n := Ascii.N_of_ascii c in
  db.unreserved c || (n =? 37)%N || (n =? 43)%N.

Fixpoint all_chars (P : Ascii.ascii → bool) (s : string) : bool :=
  match s with
  | EmptyString => true
  | String c rest => P c && all_chars P rest
  end.

(** ** More sample data *)

(** A table with the two columns and no rows. *)
Definition no_sales : DataFrame :=
  {| index := [];
     columns := {[ "MonthStart" := DateCol []; "TotalSales" := IntCol [] ]} |}.

(** Two tables stacked by [pd.concat] without [ignore_index]: the row
    labels repeat. *)
Definition stacked_sales : DataFrame :=
  {| index := [0; 1; 0; 1];
     columns :=
       {[ "MonthStart" :=
            DateCol [Some (month_start 2024 1); Some (month_start 2024 2);
                     Some (month_start 2024 3); Some (month_start 2024 4)];
          "TotalSales" := IntCol [100; 150; 90; 200] ]} |}.

(** A table whose first month is missing. *)
Definition sales_without_first_month : DataFrame :=
  {| index := RangeIndex 3;
     columns :=
       {[ "MonthStart" :=
            DateCol [None; Some (month_start 2024 2); Some (month_start 2024 3)];
          "TotalSales" := IntCol [100; 150; 90] ]} |}.

(** One month only. *)
Definition one_month : DataFrame :=
  {| index := RangeIndex 1;
     columns :=
       {[ "MonthStart" := DateCol [Some (month_start 2024 5)];
          "TotalSales" := IntCol [1234567] ]} |}.

(** The [i]-th series of a grouped bar chart: the bars of one column,
    shifted by [i] bar widths. *)
Definition bar_series (x_idx : list Q) (width : Q)
    (series : nat * (column * string)) : event :=
  ax_bar_at
    ((λ q, Qred (q + inject_Z (Z.of_nat series.1) * width)%Q) <$> x_idx)
    series.2.1 width series.2.2.

(** ** What reaches the screen *)

(** The events that put something on the screen. *)
Definition on_screen (e : event) : bool :=
  match e with
  | plt_show | display_markdown _ => true
  | _ => false
  end.

(** A statement that leaves the trace as it is. *)
Definition quiet {A} (m : M A) : Prop :=
  ∀ s, trace (m s).2 = trace s.

(** A statement that may draw but shows nothing. *)
Definition offscreen {A} (m : M A) : Prop :=
  ∀ s, ∃ evs, emitted s (m s).2 evs ∧ nothing_shown evs.

(** A chart: what it draws is shown by its last call, once, and only when
    it returns. *)
Definition shows_figure_on_success (m : M unit) : Prop :=
  ∀ s, ∃ evs,
    emitted s (m s).2 evs ∧
    match (m s).1 with
    | Return _ => ∃ drawn, evs = drawn ++ [plt_show] ∧ nothing_shown drawn
    | Raise _ => nothing_shown evs
    end.

(** A report: one paragraph of text when it returns, nothing at all when
    it raises. *)
Definition displays_text_on_success (m : M unit) : Prop :=
  ∀ s,
    match (m s).1 with
    | Return _ => ∃ text, emitted s (m s).2 [display_markdown text]
    | Raise _ => emitted s (m s).2 []
    end.

(** * Properties *)

(** ** Reordering by positions *)

Section gather.
Context {A : Type}.
Implicit Types (a : list A) (p : list nat).

Lemma gather_app a p q : gather a (p ++ q) = gather a p ++ gather a q.
Proof. apply omap_app. Qed.

Lemma gather_reverse a p : gather a (reverse p) = reverse (gather a p).
Proof.
  induction p as [|i p IH]; [done|].
  rewrite reverse_cons, gather_app, IH. unfold gather at 2 3. simpl.
  destruct (a !! i); simpl; [by rewrite reverse_cons|by rewrite app_nil_r].
Qed.

Lemma gather_seq a b : gather (a ++ b) (seq (length a) (length b)) = b.
Proof.
  revert a. induction b as [|x b IH]; intros a; [done|].
  simpl. unfold gather. simpl.
  rewrite lookup_app_r, Nat.sub_diag by lia. simpl. f_equal.
  replace (S (length a)) with (length (a ++ [x])) by (rewrite length_app; simpl; lia).
  rewrite (cons_middle x a b), app_assoc. apply IH.
Qed.

Lemma gather_all a : gather a (seq 0 (length a)) = a.
Proof. apply (gather_seq []). Qed.

Lemma gather_Permutation a p : p ≡ₚ seq 0 (length a) → gather a p ≡ₚ a.
Proof.
  intros Hp. unfold gather. rewrite Hp. fold (gather a (seq 0 (length a))).
  by rewrite gather_all.
Qed.

Lemma gather_lookup a p k :
  Forall (λ i, i < length a)%nat p → gather a p !! k = p !! k ≫= (a !!.).
Proof.
  intros Hp. revert k. induction Hp as [|i p Hi Hp IH]; intros k; [done|].
  unfold gather. simpl. destruct (lookup_lt_is_Some_2 a i Hi) as [x Hx].
  rewrite Hx. destruct k; simpl; [done|]. apply IH.
Qed.

Lemma gather_length a p :
  Forall (λ i, i < length a)%nat p → length (gather a p) = length p.
Proof.
  induction 1 as [|i p Hi Hp IH]; [done|].
  unfold gather. simpl. destruct (lookup_lt_is_Some_2 a i Hi) as [x ->].
  simpl. f_equal. apply IH.
Qed.

End gather.

Lemma gather_fmap {A B} (f : A → B) (a : list A) p :
  gather (f <$> a) p = f <$> gather a p.
Proof.
  induction p as [|i p IH]; [done|]. unfold gather in *. csimpl.
  rewrite list_lookup_fmap. destruct (a !! i); csimpl; by rewrite IH.
Qed.

Lemma Permutation_seq_bound p n :
  p ≡ₚ seq 0 n → Forall (λ i, i < n)%nat p.
Proof.
  intros Hp. rewrite Hp. apply Forall_forall. intros i Hi.
  apply elem_of_seq in Hi. lia.
Qed.

Lemma StronglySorted_mono {A} (R1 R2 : relation A) l :
  (∀ x y, R1 x y → R2 x y) → StronglySorted R1 l → StronglySorted R2 l.
Proof.
  intros HR. induction 1 as [|x l Hl IH Hx]; constructor; [done|].
  eapply Forall_impl; [exact Hx|]. naive_solver.
Qed.

Lemma StronglySorted_reverse {A} (R : relation A) l :
  StronglySorted R l → StronglySorted (flip R) (reverse l).
Proof.
  induction 1 as [|x l Hl IH Hx]; [constructor|].
  rewrite reverse_cons. apply StronglySorted_app_2.
  - intros y z Hy Hz. apply list_elem_of_singleton in Hz as ->.
    rewrite elem_of_reverse in Hy. rewrite Forall_forall in Hx.
    unfold flip. by apply Hx.
  - exact IH.
  - repeat constructor.
Qed.

(** ** [nargsort] orders the keys and loses no row *)

Lemma fst_enumerate {A} (l : list A) : (enumerate l).*1 = seq 0 (length l).
Proof. unfold enumerate. apply fst_zip. by rewrite length_seq. Qed.

Lemma snd_enumerate {A} (l : list A) : (enumerate l).*2 = l.
Proof. unfold enumerate. apply snd_zip. by rewrite length_seq. Qed.

Lemma enumerate_lookup {A} (l : list A) k i x :
  enumerate l !! k = Some (i, x) ↔ i = k ∧ l !! k = Some x.
Proof.
  unfold enumerate. rewrite lookup_zip_with_Some. split.
  - intros (i' & x' & [= <- <-] & [-> _]%lookup_seq & Hx). done.
  - intros [-> Hx]. exists k, x. split_and!; [done| |done].
    apply lookup_seq. split; [done|]. by eapply lookup_lt_Some.
Qed.

Lemma enumerate_elem_of {A} (l : list A) i x :
  (i, x) ∈ enumerate l ↔ l !! i = Some x.
Proof.
  rewrite list_elem_of_lookup. split.
  - intros [k [-> Hx]%enumerate_lookup]. done.
  - intros Hx. exists i. by apply enumerate_lookup.
Qed.

Section nargsort.
Context {K : Type}.
Implicit Types (items : list (option K)) (rows : list (nat * option K)).

Lemma present_missing_Permutation rows :
  (present rows).*1 ++ missing rows ≡ₚ rows.*1.
Proof.
  induction rows as [|[i [k|]] rows IH]; csimpl; [done|by f_equiv|].
  unfold present, missing in *. csimpl. by rewrite <-Permutation_middle, IH.
Qed.

Lemma present_spec items :
  Forall (λ r, items !! r.1 = Some (Some r.2)) (present (enumerate items)).
Proof.
  apply Forall_forall. intros [i k] Hik. apply list_elem_of_omap in Hik.
  destruct Hik as ([i' [k'|]] & Hin & Heq); simplify_eq/=.
  by apply enumerate_elem_of in Hin.
Qed.

Lemma missing_spec items :
  Forall (λ i, items !! i = Some None) (missing (enumerate items)).
Proof.
  apply Forall_forall. intros i Hi. apply list_elem_of_omap in Hi.
  destruct Hi as ([i' [k'|]] & Hin & Heq); simplify_eq/=.
  by apply enumerate_elem_of in Hin.
Qed.

Lemma gather_missing items (q : list nat) :
  Forall (λ i, items !! i = Some None) q →
  gather items q = replicate (length q) None.
Proof.
  induction 1 as [|i q Hi Hq IH]; [done|].
  unfold gather in *. csimpl. rewrite Hi. csimpl. by rewrite IH.
Qed.

Lemma gather_present items (pairs : list (nat * K)) (order : list nat) :
  Forall (λ r, items !! r.1 = Some (Some r.2)) pairs →
  gather items (gather pairs.*1 order) = Some <$> gather pairs.*2 order.
Proof.
  intros Hpairs. induction order as [|j order IH]; [done|].
  unfold gather in *. csimpl. rewrite !list_lookup_fmap.
  destruct (pairs !! j) as [[i k]|] eqn:Hj; csimpl; [|done].
  rewrite Forall_lookup in Hpairs. pose proof (Hpairs _ _ Hj) as Hik.
  simpl in Hik. rewrite Hik. csimpl. by rewrite IH.
Qed.

Context {L : Library} {HL : LibraryOk L}.
Context (leb : K → K → bool).

Lemma argsort_gather_Permutation (pairs : list (nat * K)) :
  gather pairs.*1 (np_argsort leb pairs.*2) ≡ₚ pairs.*1.
Proof.
  apply gather_Permutation. rewrite np_argsort_perm. by rewrite !length_fmap.
Qed.

Lemma nargsort_Permutation items ascending :
  nargsort leb items ascending ≡ₚ seq 0 (length items).
Proof.
  unfold nargsort.
  rewrite <-fst_enumerate, <-present_missing_Permutation. f_equiv.
  destruct ascending.
  - apply argsort_gather_Permutation.
  - rewrite reverse_Permutation, argsort_gather_Permutation.
    by rewrite fmap_reverse, reverse_Permutation.
Qed.

Lemma nargsort_sorted items ascending :
  Total (leb_rel leb) → Transitive (leb_rel leb) →
  sorted_na_last (direction ascending (leb_rel leb))
    (gather items (nargsort leb items ascending)).
Proof.
  intros Htotal Htrans. unfold nargsort.
  rewrite gather_app, (gather_missing _ _ (missing_spec items)).
  destruct ascending.
  - eexists _, _. split.
    + f_equal. apply gather_present, present_spec.
    + by apply np_argsort_sorted.
  - eexists _, _. split.
    + f_equal. rewrite gather_reverse, gather_present, <-fmap_reverse; [done|].
      apply Forall_reverse, present_spec.
    + simpl. by apply StronglySorted_reverse, np_argsort_sorted.
Qed.

End nargsort.

(** ** Sorting a column *)

#[local] Instance Z_leb_total : Total (leb_rel Z.leb).
Proof. intros x y. unfold leb_rel. rewrite !Z.leb_le. lia. Qed.

#[local] Instance Z_leb_trans : Transitive (leb_rel Z.leb).
Proof. intros x y z. unfold leb_rel. rewrite !Z.leb_le. lia. Qed.

#[local] Instance string_leb_total : Total (leb_rel String.leb).
Proof.
  intros x y. unfold leb_rel. destruct (String.leb_total x y); auto.
Qed.

#[local] Instance string_leb_trans : Transitive (leb_rel String.leb).
Proof.
  intros x y z. unfold leb_rel. intros Hxy%Is_true_true Hyz%Is_true_true.
  apply Is_true_true. by trans y.
Qed.

Lemma direction_mono {K} (R1 R2 : relation K) ascending x y :
  (∀ a b, R1 a b → R2 a b) →
  direction ascending R1 x y → direction ascending R2 x y.
Proof. destruct ascending; simpl; unfold flip; auto. Qed.

Lemma sorted_na_last_mono {K} (R1 R2 : relation K) l :
  (∀ x y, R1 x y → R2 x y) → sorted_na_last R1 l → sorted_na_last R2 l.
Proof.
  intros HR (ks & m & -> & Hks). exists ks, m. split; [done|].
  by eapply StronglySorted_mono.
Qed.

Lemma sorted_na_last_all_present {K} (R : relation K) (l : list K) :
  sorted_na_last R (Some <$> l) → StronglySorted R l.
Proof.
  intros (ks & m & Heq & Hks). destruct m as [|m].
  - rewrite app_nil_r in Heq. by apply (inj (fmap Some)) in Heq as ->.
  - assert (None ∈ Some <$> l) as Hin.
    { rewrite Heq. apply elem_of_app. right. simpl. left. }
    apply list_elem_of_fmap in Hin as (? & ? & ?). done.
Qed.

Lemma omap_present_missing {K} (ks : list K) m :
  omap id ((Some <$> ks) ++ replicate m None) = ks.
Proof.
  rewrite omap_app. replace (omap id (replicate m (@None K))) with (@nil K).
  - rewrite app_nil_r. induction ks as [|k ks IH]; csimpl; by rewrite ?IH.
  - induction m as [|m IH]; csimpl; by rewrite <-?IH.
Qed.

(** There is one way to put a column in order. *)
Lemma sorted_na_last_unique {K} (R : relation K) `{!AntiSymm (=) R}
    (l1 l2 : list (option K)) :
  sorted_na_last R l1 → sorted_na_last R l2 → l1 ≡ₚ l2 → l1 = l2.
Proof.
  intros (ks1 & m1 & -> & Hks1) (ks2 & m2 & -> & Hks2) Hperm.
  assert (ks1 = ks2) as <-.
  { apply (StronglySorted_unique R); [done..|].
    rewrite <-(omap_present_missing ks1 m1), <-(omap_present_missing ks2 m2).
    by apply omap_Permutation. }
  apply Permutation_length in Hperm.
  rewrite !length_app, !length_replicate in Hperm.
  by replace m2 with m1 by lia.
Qed.

Section sort_column.
Context {L : Library} {HL : LibraryOk L}.

Lemma col_nargsort_Permutation c ascending :
  col_nargsort c ascending ≡ₚ seq 0 (col_length c).
Proof.
  destruct c; simpl; rewrite nargsort_Permutation; by rewrite ?length_fmap.
Qed.

Lemma col_nargsort_sorted c ascending :
  col_sorted ascending (gather_col c (col_nargsort c ascending)).
Proof.
  destruct c as [xs|xs|xs]; simpl.
  - apply sorted_na_last_all_present. rewrite <-gather_fmap.
    eapply sorted_na_last_mono; [|apply (nargsort_sorted Z.leb); apply _].
    intros x y. apply direction_mono. intros a b. apply Z.leb_le.
  - eapply sorted_na_last_mono; [|apply (nargsort_sorted String.leb); apply _].
    intros x y. apply direction_mono. intros a b. apply Is_true_true.
  - eapply sorted_na_last_mono; [|apply (nargsort_sorted Z.leb); apply _].
    intros x y. apply direction_mono. intros a b. apply Z.leb_le.
Qed.

Lemma col_length_gather c p :
  Forall (λ i, i < col_length c)%nat p → col_length (gather_col c p) = length p.
Proof. destruct c; simpl; apply gather_length. Qed.

(** A sorted frame is a well-formed frame with the same number of rows. *)
Lemma take_rows_wf t p :
  wf_frame t → p ≡ₚ seq 0 (nrows t) → wf_frame (take_rows p t).
Proof.
  intros Hwf Hp name c. unfold take_rows, nrows. simpl.
  rewrite lookup_fmap. destruct (columns t !! name) as [c'|] eqn:Hc; [|done].
  intros [= <-]. apply Permutation_seq_bound in Hp.
  rewrite col_length_gather, gather_length; [done|done|].
  by rewrite (Hwf _ _ Hc).
Qed.

End sort_column.

(** ** Running statements *)

Lemma bind_run {A B} (m : M A) (k : A → M B) s :
  (m ≫= k) s =
  match m s with
  | (Return a, s') => k a s'
  | (Raise e, s') => (Raise e, s')
  end.
Proof. reflexivity. Qed.

Lemma bind_Return {A B} (m : M A) (k : A → M B) s a s' :
  m s = (Return a, s') → (m ≫= k) s = k a s'.
Proof. intros Hm. by rewrite bind_run, Hm. Qed.

Lemma bind_Raise {A B} (m : M A) (k : A → M B) s e s' :
  m s = (Raise e, s') → (m ≫= k) s = (Raise e, s').
Proof. intros Hm. by rewrite bind_run, Hm. Qed.

Lemma ret_run {A B} (a : A) (k : A → M B) s : (mret a ≫= k) s = k a s.
Proof. reflexivity. Qed.

Lemma emit_run {B} e (k : unit → M B) s :
  (emit e ≫= k) s = k tt {| heap := heap s; trace := trace s ++ [e] |}.
Proof. reflexivity. Qed.

Section run.
Context {L : Library}.

Lemma copy_run df s t :
  heap s !! df = Some t →
  copy df s = (Return (fresh (dom (heap s))),
               {| heap := <[fresh (dom (heap s)) := t]> (heap s); trace := trace s |}).
Proof. intros Hdf. unfold copy, deref. by rewrite bind_run, Hdf. Qed.

Lemma copy_unbound df s :
  heap s !! df = None →
  copy df s = (Raise (NameError "unbound dataframe"), s).
Proof. intros Hdf. unfold copy, deref. by rewrite bind_run, Hdf. Qed.

Lemma getitem_run d col s t c :
  heap s !! d = Some t → columns t !! col = Some c →
  getitem d col s = (Return {| s_index := index t; s_values := c |}, s).
Proof. intros Hd Hc. unfold getitem, deref. by rewrite bind_run, Hd, Hc. Qed.

Lemma getitem_KeyError d col s t :
  heap s !! d = Some t → columns t !! col = None →
  getitem d col s = (Raise (KeyError col), s).
Proof. intros Hd Hc. unfold getitem, deref. by rewrite bind_run, Hd, Hc. Qed.

Lemma setitem_run d col v s t :
  heap s !! d = Some t →
  setitem d col v s =
  (Return tt,
   {| heap := <[d := {| index := index t;
                        columns := <[col := s_values v]> (columns t) |}]> (heap s);
      trace := trace s |}).
Proof. intros Hd. unfold setitem, deref. by rewrite bind_run, Hd. Qed.

Lemma sort_values_run d by_ ascending s t c :
  heap s !! d = Some t → columns t !! by_ = Some c →
  sort_values d by_ ascending s =
  (Return (fresh (dom (heap s))),
   {| heap := <[fresh (dom (heap s)) := take_rows (col_nargsort c ascending) t]> (heap s);
      trace := trace s |}).
Proof. intros Hd Hc. unfold sort_values, deref. by rewrite bind_run, Hd, Hc. Qed.

Lemma to_datetime_run v s dates :
  coerce_dates (s_values v) = Some dates →
  to_datetime v s = (Return {| s_index := s_index v; s_values := DateCol dates |}, s).
Proof. intros Hv. unfold to_datetime. by rewrite Hv. Qed.

Lemma to_datetime_ValueError v s :
  coerce_dates (s_values v) = None →
  to_datetime v s
  = (Raise (ValueError "time data does not match a datetime format"), s).
Proof. intros Hv. unfold to_datetime. by rewrite Hv. Qed.

Lemma sort_values_KeyError d by_ ascending s t :
  heap s !! d = Some t → columns t !! by_ = None →
  sort_values d by_ ascending s = (Raise (KeyError by_), s).
Proof. intros Hd Hc. unfold sort_values, deref. by rewrite bind_run, Hd, Hc. Qed.

End run.

(** Steps through the statements whose outcome is known. *)
Ltac known_lookup :=
  simpl;
  first
    [ eassumption
    | apply lookup_insert_eq
    | unfold take_rows; simpl; rewrite lookup_fmap;
      first [ rewrite lookup_insert_eq
            | match goal with H : _ !! _ = _ |- _ => rewrite H end ];
      reflexivity ].

Ltac run_step :=
  first
    [ rewrite emit_run
    | rewrite ret_run
    | erewrite bind_Return by
        (first [ eapply copy_run | eapply getitem_run | eapply setitem_run
               | eapply sort_values_run | eapply to_datetime_run ];
         known_lookup)
    | erewrite bind_Raise by
        (first [ eapply copy_unbound | eapply getitem_KeyError
               | eapply sort_values_KeyError | eapply to_datetime_ValueError ];
         known_lookup) ].

Ltac run := repeat (run_step; simpl).

(** Membership in a list that is written out, and its refutation when
    every listed column is there. *)
Ltac listed := repeat first [ apply list_elem_of_here | apply list_elem_of_further ].

Ltac all_there H :=
  repeat (apply elem_of_cons in H as [->|H]; [congruence|]);
  by apply elem_of_nil in H.

(** ** grouped_bar_wide: the legend labels are checked before drawing *)

(** C1 (as amended): for every dataframe, every [y_cols] and every
    [y_col_labels] of another length, [grouped_bar_wide] raises before any
    figure is created or any bar is drawn: the [ValueError] with its message
    when the dataframe has the column [x], and the [KeyError] of the lookup
    of [x], which comes first, when it has not. *)
Theorem grouped_bar_wide_label_count_checked_first
    {L : Library} s df t x y_cols title xlabel ylabel legend_title figsize
    rotate_x (y_col_labels : list string) :
  heap s !! df = Some t →
  length y_col_labels ≠ length y_cols →
  ∃ s',
    grouped_bar_wide df x y_cols title xlabel ylabel legend_title figsize
      rotate_x (Some y_col_labels) s
    = (Raise (if columns t !! x is Some _
              then ValueError "y_col_labels must have the same length as y_cols"
              else KeyError x), s')
    ∧ trace s' = trace s.
Proof.
  intros Hdf Hlen. unfold grouped_bar_wide.
  destruct (columns t !! x) as [c|] eqn:Hx.
  - run. apply Nat.eqb_neq in Hlen. rewrite Hlen. simpl. by eexists.
  - run. by eexists.
Qed.

Lemma grouped_bar_wide_label_count_checked_first_witness :
  ∃ s',
    grouped_bar_wide (L := stable_library) 1%nat "Territory" ["Sales"; "Orders"]
      "Sales and orders" None "" "" (11, 5) 0 (Some ["Sales"])
      (state_with 1%nat tied_sales)
    = (Raise (ValueError "y_col_labels must have the same length as y_cols"), s')
    ∧ trace s' = [].
Proof.
  apply (grouped_bar_wide_label_count_checked_first (L := stable_library)
           (state_with 1%nat tied_sales) 1%nat tied_sales "Territory"
           ["Sales"; "Orders"] "Sales and orders" None "" "" (11, 5) 0 ["Sales"]).
  - reflexivity.
  - simpl. lia.
Defined.

(** C1, counterexample: the dataframe has no column ["Region"]; the label
    count is wrong as well, and the call raises [KeyError], not
    [ValueError]. *)
Lemma grouped_bar_wide_missing_x_is_KeyError :
  let r := grouped_bar_wide (L := stable_library) 1%nat "Region"
             ["Sales"; "Orders"] "Sales and orders" None "" "" (11, 5) 0
             (Some ["only one"]) (state_with 1%nat tied_sales) in
  columns tied_sales !! "Region" = None ∧
  length ["only one"] ≠ length ["Sales"; "Orders"] ∧
  r.1 = Raise (KeyError "Region") ∧
  (∀ msg, r.1 ≠ Raise (ValueError msg)).
Proof.
  assert ((grouped_bar_wide (L := stable_library) 1%nat "Region"
             ["Sales"; "Orders"] "Sales and orders" None "" "" (11, 5) 0
             (Some ["only one"]) (state_with 1%nat tied_sales)).1
          = Raise (KeyError "Region")) as Hrun by by vm_compute.
  simpl. split_and!; [by vm_compute|simpl; lia|exact Hrun|].
  intros msg. rewrite Hrun. discriminate.
Qed.

(** ** The chart helpers own what they change *)

Section framing.
Context {L : Library} (h0 : gmap loc DataFrame).

Lemma framed_bind {A B} (m : M A) (k : A → M B) (φ : A → Prop) (ψ : B → Prop) :
  framed h0 m φ → (∀ a, φ a → framed h0 (k a) ψ) → framed h0 (m ≫= k) ψ.
Proof.
  intros Hm Hk s Hs. rewrite bind_run. specialize (Hm s Hs).
  destruct (m s) as [[a|e] s']; [|done]. destruct Hm as [Hs' Ha].
  by apply Hk.
Qed.

Lemma framed_weaken {A} (m : M A) (φ ψ : A → Prop) :
  (∀ a, φ a → ψ a) → framed h0 m φ → framed h0 m ψ.
Proof.
  intros Himp Hm s Hs. generalize (Hm s Hs).
  destruct (m s) as [[a|e] s']; [|done]. intros [? ?]. split; auto.
Qed.

(** Statements that only read. *)
Lemma framed_read {A} (m : M A) :
  (∀ s, (m s).2 = s) → framed h0 m (λ _, True).
Proof.
  intros Hm s Hs. generalize (Hm s).
  destruct (m s) as [[a|e] s']; simpl; by intros ->.
Qed.

Lemma framed_ret {A} (a : A) (φ : A → Prop) : φ a → framed h0 (mret a) φ.
Proof. intros Ha s Hs. by split. Qed.

Lemma framed_raise {A} e (φ : A → Prop) : framed h0 (raise e) φ.
Proof. by intros s Hs. Qed.

Lemma framed_emit e : framed h0 (emit e) (λ _, True).
Proof. by intros s Hs. Qed.

Lemma framed_alloc t : framed h0 (alloc t) (λ d, h0 !! d = None).
Proof.
  intros s Hs. unfold keeps in *. simpl.
  assert (heap s !! fresh (dom (heap s)) = None) as Hfresh.
  { apply not_elem_of_dom, is_fresh. }
  assert (h0 !! fresh (dom (heap s)) = None) as Hnew.
  { eapply lookup_weaken_None; eauto. }
  split; [|done]. by apply insert_subseteq_r.
Qed.

Lemma framed_store d t : h0 !! d = None → framed h0 (store d t) (λ _, True).
Proof.
  intros Hd s Hs. unfold keeps in *. simpl. split; [|done].
  by apply insert_subseteq_r.
Qed.

Lemma framed_deref d : framed h0 (deref d) (λ _, True).
Proof. apply framed_read. intros s. unfold deref. by destruct (heap s !! d). Qed.

Lemma framed_copy df : framed h0 (copy df) (λ d, h0 !! d = None).
Proof.
  eapply framed_bind; [apply framed_deref|]. intros t _. apply framed_alloc.
Qed.

Lemma framed_getitem d col : framed h0 (getitem d col) (λ _, True).
Proof.
  eapply framed_bind; [apply framed_deref|]. intros t _.
  destruct (columns t !! col); [by apply framed_ret|apply framed_raise].
Qed.

Lemma framed_setitem d col v :
  h0 !! d = None → framed h0 (setitem d col v) (λ _, True).
Proof.
  intros Hd. eapply framed_bind; [apply framed_deref|]. intros t _.
  by apply framed_store.
Qed.

Lemma framed_sort_values d by_ ascending :
  framed h0 (sort_values d by_ ascending) (λ d', h0 !! d' = None).
Proof.
  eapply framed_bind; [apply framed_deref|]. intros t _.
  destruct (columns t !! by_); [apply framed_alloc|apply framed_raise].
Qed.

Lemma framed_to_datetime v : framed h0 (to_datetime v) (λ _, True).
Proof.
  unfold to_datetime.
  destruct (coerce_dates (s_values v)); [by apply framed_ret|apply framed_raise].
Qed.

Lemma framed_idx_extreme want_max v :
  framed h0 (idx_extreme want_max v) (λ _, True).
Proof.
  apply framed_read. intros s. unfold idx_extreme, col_argbest.
  rewrite bind_run.
  destruct (s_values v) as [xs|xs|xs]; simpl; [|done|].
  - destruct (argbest _ 0 None (Some <$> xs)) as [i|]; [|done]. simpl.
    by destruct (s_index v !! i).
  - destruct (argbest _ 0 None xs) as [i|]; [|done]. simpl.
    by destruct (s_index v !! i).
Qed.

Lemma framed_loc d label : framed h0 (loc_ d label) (λ _, True).
Proof.
  eapply framed_bind; [apply framed_deref|]. intros t _.
  destruct (positions_of label (index t)) as [|i [|j ps]];
    [apply framed_raise|by apply framed_ret..].
Qed.

Lemma framed_iloc d i : framed h0 (iloc d i) (λ _, True).
Proof.
  eapply framed_bind; [apply framed_deref|]. intros t _. simpl.
  repeat case_decide; first [by apply framed_ret|apply framed_raise].
Qed.

Lemma framed_row_getitem row col : framed h0 (row_getitem row col) (λ _, True).
Proof.
  unfold row_getitem. destruct (row !! col); [by apply framed_ret|apply framed_raise].
Qed.

Lemma framed_fmt_month v : framed h0 (_fmt_month v) (λ _, True).
Proof.
  destruct v as [z|str| |ts|]; simpl;
    try first [by apply framed_ret|apply framed_raise].
  - case_decide; [apply framed_raise|by apply framed_ret].
  - destruct (parse_datetimes [Some str]) as [[|[t|] [|? ?]]|];
      first [by apply framed_ret|apply framed_raise].
Qed.

Lemma framed_float v : framed h0 (float_ v) (λ _, True).
Proof. destruct v; simpl; first [by apply framed_ret|apply framed_raise]. Qed.

Lemma framed_loc_fmt_month r col : framed h0 (loc_fmt_month r col) (λ _, True).
Proof.
  destruct r; simpl; [|apply framed_raise].
  eapply framed_bind; [apply framed_row_getitem|]. intros. apply framed_fmt_month.
Qed.

Lemma framed_loc_float r col : framed h0 (loc_float r col) (λ _, True).
Proof.
  destruct r; simpl; [|apply framed_raise].
  eapply framed_bind; [apply framed_row_getitem|]. intros. apply framed_float.
Qed.

Lemma framed_for_enumerate {A} start (xs : list A) body :
  (∀ i x, framed h0 (body i x) (λ _, True)) →
  framed h0 (for_enumerate start xs body) (λ _, True).
Proof.
  intros Hbody. revert start. induction xs as [|x xs IH]; intros start; simpl.
  - by apply framed_ret.
  - eapply framed_bind; [apply Hbody|]. intros _ _. apply IH.
Qed.

End framing.

(** Walks through a helper, statement by statement. *)
Ltac framed_step :=
  lazymatch goal with
  | |- framed _ (_ ≫= _) _ =>
      eapply framed_bind;
      [ first [ apply framed_emit | apply framed_copy | apply framed_getitem
              | apply framed_sort_values | apply framed_to_datetime
              | apply framed_setitem; assumption
              | apply framed_idx_extreme | apply framed_loc | apply framed_iloc
              | apply framed_row_getitem | apply framed_fmt_month
              | apply framed_float | apply framed_loc_fmt_month
              | apply framed_loc_float ]
      | intros ? ? ]
  | |- framed _ (emit _) _ => apply framed_emit
  end.

Section charts_framed.
Context {L : Library} (h0 : gmap loc DataFrame).

Lemma framed_bar_vertical df x y title xlabel ylabel sort_by ascending figsize rotate_x :
  framed h0 (bar_vertical df x y title xlabel ylabel sort_by ascending
               figsize rotate_x) (λ _, True).
Proof.
  unfold bar_vertical. framed_step.
  eapply framed_bind with (φ := λ _, True).
  { destruct (truthy sort_by).
    - eapply framed_weaken; [|apply framed_sort_values]. done.
    - by apply framed_ret. }
  intros ? _. repeat framed_step.
Qed.

Lemma framed_bar_horizontal df x y title xlabel ylabel sort_desc figsize :
  framed h0 (bar_horizontal df x y title xlabel ylabel sort_desc figsize)
    (λ _, True).
Proof. unfold bar_horizontal. repeat framed_step. Qed.

Lemma framed_line_plot_monthly df date_col value_col title xlabel ylabel
    month_interval figsize marker :
  framed h0 (line_plot_monthly df date_col value_col title xlabel ylabel
               month_interval figsize marker) (λ _, True).
Proof. unfold line_plot_monthly. repeat framed_step. Qed.

Lemma framed_grouped_bar_wide df x y_cols title xlabel ylabel legend_title
    figsize rotate_x y_col_labels :
  framed h0 (grouped_bar_wide df x y_cols title xlabel ylabel legend_title
               figsize rotate_x y_col_labels) (λ _, True).
Proof.
  unfold grouped_bar_wide. do 2 framed_step.
  destruct (negb _); [apply framed_raise|]. framed_step.
  eapply framed_bind.
  { apply framed_for_enumerate. intros i [col lab]. repeat framed_step. }
  intros _ _. repeat framed_step.
Qed.

Lemma framed_scatter_plot df x y title xlabel ylabel figsize alpha :
  framed h0 (scatter_plot df x y title xlabel ylabel figsize alpha) (λ _, True).
Proof. unfold scatter_plot. repeat framed_step. Qed.

Lemma framed_insight_monthly_trend df date_col value_col :
  framed h0 (insight_monthly_trend df date_col value_col) (λ _, True).
Proof. unfold insight_monthly_trend, idxmax, idxmin. repeat framed_step. Qed.

End charts_framed.

Lemma framed_preserved {A} (m : M A) s :
  framed (heap s) m (λ _, True) → frame_preserved s (m s).2.
Proof.
  intros Hm l t Hl. specialize (Hm s (reflexivity _)).
  destruct (m s) as [[a|e] s']; simpl; [destruct Hm as [Hm _]|];
    by eapply lookup_weaken.
Qed.

(** C8: every rendering function leaves the dataframe it is given, and
    every other dataframe that exists when it is called, as it was:
    whatever the arguments, and whether the call returns or raises. *)
Theorem chart_helpers_leave_dataframes_unchanged {L : Library} (s : state) (df : loc) :
  (∀ x y title xlabel ylabel sort_by ascending figsize rotate_x,
     frame_preserved s
       (bar_vertical df x y title xlabel ylabel sort_by ascending figsize
          rotate_x s).2) ∧
  (∀ x y title xlabel ylabel sort_desc figsize,
     frame_preserved s
       (bar_horizontal df x y title xlabel ylabel sort_desc figsize s).2) ∧
  (∀ date_col value_col title xlabel ylabel month_interval figsize marker,
     frame_preserved s
       (line_plot_monthly df date_col value_col title xlabel ylabel
          month_interval figsize marker s).2) ∧
  (∀ x y_cols title xlabel ylabel legend_title figsize rotate_x y_col_labels,
     frame_preserved s
       (grouped_bar_wide df x y_cols title xlabel ylabel legend_title figsize
          rotate_x y_col_labels s).2) ∧
  (∀ x y title xlabel ylabel figsize alpha,
     frame_preserved s
       (scatter_plot df x y title xlabel ylabel figsize alpha s).2) ∧
  (∀ date_col value_col,
     frame_preserved s (insight_monthly_trend df date_col value_col s).2).
Proof.
  split_and!; intros; apply framed_preserved.
  - apply framed_bar_vertical.
  - apply framed_bar_horizontal.
  - apply framed_line_plot_monthly.
  - apply framed_grouped_bar_wide.
  - apply framed_scatter_plot.
  - apply framed_insight_monthly_trend.
Qed.

(** ** Bar charts: the order of the bars *)

(** C3: with [sort_by] set, [bar_vertical] draws the categories, and their
    bars, in the order [p] of the rows of the table sorted by that column
    in the direction [ascending]; [bar_horizontal] with [sort_desc=True]
    draws them in descending order of the value column [x].  In both, [p]
    is a reordering of all the rows, present keys come in order and
    missing ones last; when a plotted column does not exist the call
    raises and draws no bars at all. *)
Theorem bar_charts_render_in_sorted_order
    {L : Library} {HL : LibraryOk L} s df t :
  heap s !! df = Some t →
  wf_frame t →
  (∀ x y title xlabel ylabel sort_by ascending figsize rotate_x key,
     sort_by ≠ "" → columns t !! sort_by = Some key →
     ∃ p, p ≡ₚ seq 0 (nrows t) ∧
          col_sorted ascending (gather_col key p) ∧
          let r := bar_vertical df x y title xlabel ylabel (Some sort_by)
                     ascending figsize rotate_x s in
          match columns t !! x, columns t !! y with
          | Some cx, Some cy =>
              r.1 = Return tt ∧
              emitted s r.2
                [plt_figure figsize;
                 ax_bar (astype_str (series_at t cx p)) (gather_col cy p);
                 ax_set_title title;
                 ax_set_xlabel (or_else xlabel x);
                 ax_set_ylabel (or_else ylabel y);
                 plt_xticks rotate_x; plt_tight_layout; plt_show]
          | _, _ =>
              (∃ k, r.1 = Raise (KeyError k)) ∧ emitted s r.2 [plt_figure figsize]
          end) ∧
  (∀ x y title xlabel ylabel figsize value,
     columns t !! x = Some value →
     ∃ p, p ≡ₚ seq 0 (nrows t) ∧
          col_sorted false (gather_col value p) ∧
          let r := bar_horizontal df x y title xlabel ylabel true figsize s in
          match columns t !! y with
          | Some cy =>
              r.1 = Return tt ∧
              emitted s r.2
                [plt_figure figsize;
                 ax_barh (astype_str (series_at t cy p)) (gather_col value p);
                 ax_invert_yaxis;
                 ax_set_title title;
                 ax_set_xlabel (or_else xlabel x);
                 ax_set_ylabel (or_else ylabel y);
                 plt_tight_layout; plt_show]
          | None =>
              r.1 = Raise (KeyError y) ∧ emitted s r.2 [plt_figure figsize]
          end).
Proof.
  intros Hdf Hwf. split.
  - intros x y title xlabel ylabel sort_by ascending figsize rotate_x key
      Hset Hkey.
    exists (col_nargsort key ascending). split_and!.
    + rewrite col_nargsort_Permutation. by rewrite (Hwf _ _ Hkey).
    + apply col_nargsort_sorted.
    + unfold bar_vertical, emitted. simpl.
      assert (String.eqb sort_by "" = false) as ->.
      { by apply String.eqb_neq. }
      simpl.
      destruct (columns t !! x) as [cx|] eqn:Hx;
        [destruct (columns t !! y) as [cy|] eqn:Hy|]; run.
      * split; [done|]. by rewrite <-!app_assoc.
      * split; [by eexists|done].
      * split; [by eexists|done].
  - intros x y title xlabel ylabel figsize value Hx.
    exists (col_nargsort value false). split_and!.
    + rewrite col_nargsort_Permutation. by rewrite (Hwf _ _ Hx).
    + apply col_nargsort_sorted.
    + unfold bar_horizontal, emitted. simpl.
      destruct (columns t !! y) as [cy|] eqn:Hy; run.
      * split; [done|]. by rewrite <-!app_assoc.
      * done.
Qed.

(** ** The two sample libraries meet the contract *)

Lemma StronglySorted_lookup_lt {A} (R : relation A) l a b x y :
  StronglySorted R l → l !! a = Some x → l !! b = Some y → (a < b)%nat → R x y.
Proof.
  intros Hl. revert a b. induction Hl as [|z l Hl IH Hz]; intros a b Ha Hb Hab.
  { by rewrite lookup_nil in Ha. }
  destruct b as [|b]; [lia|]. simpl in Hb. destruct a as [|a]; simpl in Ha.
  - simplify_eq. rewrite Forall_forall in Hz. apply Hz.
    by eapply list_elem_of_lookup_2.
  - eapply IH; eauto. lia.
Qed.

Lemma gather_pairs {A} (l : list A) (rows : list (nat * A)) :
  Forall (λ r, l !! r.1 = Some r.2) rows → gather l rows.*1 = rows.*2.
Proof.
  induction 1 as [|[i x] rows Hi Hrows IH]; [done|].
  unfold gather in *. csimpl. simpl in Hi. rewrite Hi. csimpl. by rewrite IH.
Qed.

Lemma enumerate_spec {A} (l : list A) :
  Forall (λ r, l !! r.1 = Some r.2) (enumerate l).
Proof. apply Forall_forall. intros [i x]. apply enumerate_elem_of. Qed.

Lemma enumerate_increasing {A} (l : list A) :
  StronglySorted (λ r1 r2, r1.1 < r2.1)%nat (enumerate l).
Proof.
  unfold enumerate. generalize 0%nat as k.
  induction l as [|x l IH]; intros k; simpl; constructor; [apply IH|].
  apply Forall_forall. intros [i y] Hin. apply elem_of_zip_l in Hin.
  apply elem_of_seq in Hin. simpl. lia.
Qed.

Section insertion_sort.
Context {A : Type} (stop : A → A → bool).

Lemma insert_by_Permutation x l : insert_by stop x l ≡ₚ x :: l.
Proof.
  induction l as [|y l IH]; simpl; [done|].
  destruct (stop x y); [done|]. by rewrite IH, Permutation_swap.
Qed.

Lemma insertion_sort_Permutation l : insertion_sort stop l ≡ₚ l.
Proof.
  induction l as [|x l IH]; simpl; [done|].
  by rewrite insert_by_Permutation, IH.
Qed.

Lemma insert_by_sorted (R : relation A) x l :
  Transitive R →
  (∀ y, stop x y = true → R x y) → (∀ y, stop x y = false → R y x) →
  StronglySorted R l → StronglySorted R (insert_by stop x l).
Proof.
  intros HR Hstop Hgo. induction 1 as [|y l Hl IH Hy]; simpl.
  { repeat constructor. }
  destruct (stop x y) eqn:Hxy.
  - constructor; [by constructor|]. constructor; [by apply Hstop|].
    eapply Forall_impl; [exact Hy|]. intros z Hz. trans y; [|done].
    by apply Hstop.
  - constructor; [done|]. rewrite insert_by_Permutation.
    constructor; [by apply Hgo|done].
Qed.

Lemma insertion_sort_sorted (R : relation A) l :
  Transitive R →
  (∀ x y, stop x y = true → R x y) → (∀ x y, stop x y = false → R y x) →
  StronglySorted R (insertion_sort stop l).
Proof.
  intros HR Hstop Hgo. induction l as [|x l IH]; simpl; [constructor|].
  apply insert_by_sorted; auto.
Qed.

End insertion_sort.

Section argsort_by_insertion.
Context {K : Type} (leb : K → K → bool).
Context (stop : nat * K → nat * K → bool).

Lemma argsort_by_insertion_Permutation (l : list K) :
  (insertion_sort stop (enumerate l)).*1 ≡ₚ seq 0 (length l).
Proof. by rewrite insertion_sort_Permutation, fst_enumerate. Qed.

Lemma argsort_by_insertion_sorted (l : list K) :
  Total (leb_rel leb) → Transitive (leb_rel leb) →
  (∀ x y, stop x y = true → leb x.2 y.2 = true) →
  (∀ x y, stop x y = false → leb y.2 x.2 = true) →
  StronglySorted (leb_rel leb) (gather l (insertion_sort stop (enumerate l)).*1).
Proof.
  intros Htotal Htrans Hstop Hgo. rewrite gather_pairs.
  - apply (StronglySorted_fmap snd (λ r1 r2 : nat * K, leb_rel leb r1.2 r2.2)).
    { done. }
    apply insertion_sort_sorted; [|done..].
    intros x y z. apply Htrans.
  - rewrite insertion_sort_Permutation. apply enumerate_spec.
Qed.

End argsort_by_insertion.

Lemma parse_iso_dates_length l r :
  parse_iso_dates l = Some r → length r = length l.
Proof. intros Hr. symmetry. by eapply length_mapM. Qed.

#[global] Instance stable_library_ok : LibraryOk stable_library.
Proof.
  split.
  - intros K leb l. apply argsort_by_insertion_Permutation.
  - intros K leb l Htotal Htrans.
    apply argsort_by_insertion_sorted; [done..| |].
    + by intros x y.
    + intros x y Hxy. destruct (Htotal x.2 y.2) as [H|H]; [|done].
      unfold leb_rel in H. congruence.
  - apply parse_iso_dates_length.
Qed.

#[global] Instance tie_reversing_library_ok : LibraryOk tie_reversing_library.
Proof.
  split.
  - intros K leb l. apply argsort_by_insertion_Permutation.
  - intros K leb l Htotal Htrans.
    apply argsort_by_insertion_sorted; [done..| |].
    + intros x y Hxy%negb_true_iff. destruct (Htotal x.2 y.2) as [H|H]; [done|].
      unfold leb_rel in H. congruence.
    + by intros x y Hxy%negb_false_iff.
  - apply parse_iso_dates_length.
Qed.

Lemma bar_charts_render_in_sorted_order_witness :
  ∃ p, p ≡ₚ seq 0 3 ∧
       col_sorted false (gather_col (IntCol [70; 70; 90]) p) ∧
       let r := bar_horizontal (L := stable_library) 1%nat "Sales" "Territory"
                  "Sales by territory" None None true (10, 6)
                  (state_with 1%nat tied_sales) in
       r.1 = Return tt ∧
       emitted (state_with 1%nat tied_sales) r.2
         [plt_figure (10, 6);
          ax_barh
            (astype_str (L := stable_library)
               (series_at tied_sales
                  (ObjCol [Some "Canada"; Some "France"; Some "Germany"]) p))
            (gather_col (IntCol [70; 70; 90]) p);
          ax_invert_yaxis;
          ax_set_title "Sales by territory";
          ax_set_xlabel "Sales";
          ax_set_ylabel "Territory";
          plt_tight_layout; plt_show].
Proof.
  refine (proj2 (bar_charts_render_in_sorted_order (L := stable_library)
                   (state_with 1%nat tied_sales) 1%nat tied_sales _ _)
            "Sales" "Territory" "Sales by territory" None None (10, 6)
            (IntCol [70; 70; 90]) _).
  - reflexivity.
  - refine (bool_decide_unpack _ _). vm_compute. exact I.
  - reflexivity.
Defined.

(** ** Monthly line: points in date order *)

Lemma coerce_dates_length {L : Library} {HL : LibraryOk L} c dates :
  coerce_dates c = Some dates → length dates = col_length c.
Proof.
  destruct c as [xs|xs|xs]; simpl.
  - intros [= <-]. by rewrite length_fmap.
  - apply parse_datetimes_length.
  - by intros [= <-].
Qed.

(** C4: [line_plot_monthly] plots the rows in the order [p] in which the
    coerced dates are non-decreasing (present dates in order, [NaT] last),
    whatever the order of the rows of the input: [p] is a reordering of
    all the rows, and the dates it plots are the one non-decreasing
    arrangement of the coerced dates.  When the date column is missing or
    cannot be coerced, or the value column is missing, the call raises
    and plots nothing. *)
Theorem line_plot_monthly_plots_in_date_order
    {L : Library} {HL : LibraryOk L} s df t date_col value_col title xlabel
    ylabel month_interval figsize marker :
  heap s !! df = Some t →
  wf_frame t →
  let r := line_plot_monthly df date_col value_col title xlabel ylabel
             month_interval figsize marker s in
  match columns t !! date_col with
  | None => r.1 = Raise (KeyError date_col) ∧ emitted s r.2 []
  | Some c =>
      match coerce_dates c with
      | None => (∃ msg, r.1 = Raise (ValueError msg)) ∧ emitted s r.2 []
      | Some dates =>
          ∃ p, p ≡ₚ seq 0 (nrows t) ∧
               sorted_na_last Z.le (gather dates p) ∧
               (∀ dates', dates' ≡ₚ dates → sorted_na_last Z.le dates' →
                  gather dates p = dates') ∧
               match <[date_col := DateCol dates]> (columns t) !! value_col with
               | Some values =>
                   r.1 = Return tt ∧
                   emitted s r.2
                     [plt_figure figsize;
                      plt_plot (DateCol (gather dates p)) (gather_col values p)
                        marker;
                      ax_set_title title;
                      ax_set_xlabel xlabel;
                      ax_set_ylabel ylabel;
                      ax_set_major_locator month_interval;
                      ax_set_major_formatter "%Y-%m";
                      plt_xticks 45; plt_tight_layout; plt_show]
               | None =>
                   r.1 = Raise (KeyError value_col) ∧
                   emitted s r.2 [plt_figure figsize]
               end
      end
  end.
Proof.
  intros Hdf Hwf. unfold line_plot_monthly, emitted. simpl.
  destruct (columns t !! date_col) as [c|] eqn:Hc.
  2: { run. by rewrite app_nil_r. }
  destruct (coerce_dates c) as [dates|] eqn:Hdates.
  2: { run. split; [by eexists|by rewrite app_nil_r]. }
  exists (col_nargsort (DateCol dates) true). split_and!.
  - rewrite col_nargsort_Permutation. simpl.
    by rewrite (coerce_dates_length _ _ Hdates), (Hwf _ _ Hc).
  - apply (col_nargsort_sorted (DateCol dates) true).
  - intros dates' Hperm Hsorted. apply (sorted_na_last_unique Z.le); [|done|].
    + apply (col_nargsort_sorted (DateCol dates) true).
    + rewrite Hperm. apply gather_Permutation.
      apply (col_nargsort_Permutation (DateCol dates) true).
  - destruct (<[date_col:=DateCol dates]> (columns t) !! value_col)
      as [values|] eqn:Hvalues; run.
    + split; [done|]. by rewrite <-!app_assoc.
    + done.
Qed.

Lemma line_plot_monthly_plots_in_date_order_witness :
  ∃ p, p ≡ₚ seq 0 3 ∧
       sorted_na_last Z.le
         (gather [Some (month_start 2024 3); Some (month_start 2024 2);
                  Some (month_start 2024 1)] p) ∧
       (∀ dates',
          dates' ≡ₚ [Some (month_start 2024 3); Some (month_start 2024 2);
                     Some (month_start 2024 1)] →
          sorted_na_last Z.le dates' →
          gather [Some (month_start 2024 3); Some (month_start 2024 2);
                  Some (month_start 2024 1)] p = dates') ∧
       let r := line_plot_monthly (L := stable_library) 1%nat "MonthStart"
                  "TotalSales" "Monthly sales" "Month" "Value" 3 (11, 5) "o"
                  (state_with 1%nat sales_latest_first) in
       r.1 = Return tt ∧
       emitted (state_with 1%nat sales_latest_first) r.2
         [plt_figure (11, 5);
          plt_plot
            (DateCol
               (gather [Some (month_start 2024 3); Some (month_start 2024 2);
                        Some (month_start 2024 1)] p))
            (gather_col (IntCol [300; 500; 100]) p) "o";
          ax_set_title "Monthly sales";
          ax_set_xlabel "Month";
          ax_set_ylabel "Value";
          ax_set_major_locator 3;
          ax_set_major_formatter "%Y-%m";
          plt_xticks 45; plt_tight_layout; plt_show].
Proof.
  refine (line_plot_monthly_plots_in_date_order (L := stable_library)
            (state_with 1%nat sales_latest_first) 1%nat sales_latest_first
            "MonthStart" "TotalSales" "Monthly sales" "Month" "Value" 3
            (11, 5) "o" _ _).
  - reflexivity.
  - refine (bool_decide_unpack _ _). vm_compute. exact I.
Defined.

(** ** The monthly insight *)

Lemma argbest_from (key : Z → Z) (better : Z → Z → bool) i ib b xs :
  (∀ x y, better x y = (key y <? key x)) →
  ∃ r v, argbest better i (Some (ib, b)) (Some <$> xs) = Some r ∧
    ((r = ib ∧ v = b ∧ ∀ w, w ∈ xs → key w ≤ key b) ∨
     (∃ k, r = (i + k)%nat ∧ xs !! k = Some v ∧ key b < key v ∧
           (∀ w, w ∈ xs → key w ≤ key v) ∧
           (∀ j w, (j < k)%nat → xs !! j = Some w → key w < key v))).
Proof.
  intros Hbetter. revert i ib b.
  induction xs as [|x xs IH]; intros i ib b; csimpl.
  { exists ib, b. split; [done|]. left. split_and!; [done..|].
    by intros w ?%elem_of_nil. }
  rewrite Hbetter. destruct (Z.ltb_spec (key b) (key x)) as [Hlt|Hge].
  - destruct (IH (S i) i x)
      as (r & v & Hr & [(-> & -> & Hall)|(k & -> & Hk & Hxv & Hall & Hbefore)]).
    + exists i, x. split; [exact Hr|]. right. exists 0%nat.
      split_and!; [lia|done|done| |intros; lia].
      intros w [->|Hw]%elem_of_cons; [lia|by apply Hall].
    + exists (S i + k)%nat, v. split; [exact Hr|]. right. exists (S k).
      split_and!; [lia|done|lia| |].
      * intros w [->|Hw]%elem_of_cons; [lia|by apply Hall].
      * intros [|j] w Hj Hw; simpl in Hw; [simplify_eq; lia|].
        eapply Hbefore; [|done]. lia.
  - destruct (IH (S i) ib b)
      as (r & v & Hr & [(-> & -> & Hall)|(k & -> & Hk & Hxv & Hall & Hbefore)]).
    + exists ib, b. split; [exact Hr|]. left. split_and!; [done..|].
      intros w [->|Hw]%elem_of_cons; [lia|by apply Hall].
    + exists (S i + k)%nat, v. split; [exact Hr|]. right. exists (S k).
      split_and!; [lia|done|lia| |].
      * intros w [->|Hw]%elem_of_cons; [lia|by apply Hall].
      * intros [|j] w Hj Hw; simpl in Hw; [simplify_eq; lia|].
        eapply Hbefore; [|done]. lia.
Qed.

Lemma argbest_first_extreme (key : Z → Z) (better : Z → Z → bool) vals :
  (∀ x y, better x y = (key y <? key x)) →
  vals ≠ [] →
  ∃ i v, argbest better 0 None (Some <$> vals) = Some i ∧
         first_extreme key vals i v.
Proof.
  intros Hbetter Hne. destruct vals as [|x xs]; [done|]. csimpl.
  destruct (argbest_from key better 1 0 x xs Hbetter)
    as (r & v & Hr & [(-> & -> & Hall)|(k & -> & Hk & Hxv & Hall & Hbefore)]).
  - exists 0%nat, x. split; [exact Hr|]. split_and!; [done| |intros; lia].
    intros w [->|Hw]%elem_of_cons; [lia|by apply Hall].
  - exists (S k), v. split; [exact Hr|]. split_and!; [done| |].
    + intros w [->|Hw]%elem_of_cons; [lia|by apply Hall].
    + intros [|j] w Hj Hw; simpl in Hw; [simplify_eq; lia|].
      eapply Hbefore; [|done]. lia.
Qed.

Lemma positions_of_absent (idx : list Z) k label :
  label ∉ idx →
  omap (λ r : nat * Z, if decide (r.2 = label) then Some r.1 else None)
    (zip (seq k (length idx)) idx) = [].
Proof.
  revert k. induction idx as [|x idx IH]; intros k Hnot; [done|].
  apply not_elem_of_cons in Hnot as [Hx Hnot]. csimpl.
  rewrite decide_False by done. by apply IH.
Qed.

Lemma positions_of_NoDup (idx : list Z) i label :
  NoDup idx → idx !! i = Some label → positions_of label idx = [i].
Proof.
  unfold positions_of, enumerate. change [i] with [(0 + i)%nat].
  generalize 0%nat as k. revert i.
  induction idx as [|x idx IH]; intros i k Hnd Hi; [done|].
  apply NoDup_cons in Hnd as [Hx Hnd]. csimpl. destruct i as [|i]; simpl in Hi.
  - simplify_eq. rewrite decide_True by done.
    rewrite positions_of_absent by done. f_equal. lia.
  - rewrite decide_False.
    + rewrite (IH i (S k)) by done. f_equal. lia.
    + intros ->. apply Hx. by eapply list_elem_of_lookup_2.
Qed.

Lemma row_at_lookup t i col c v :
  columns t !! col = Some c → col_cells c !! i = Some v →
  row_at t i !! col = Some v.
Proof. intros Hc Hv. unfold row_at. by rewrite lookup_omap, Hc. Qed.

Lemma row_at_date t i col ds d :
  columns t !! col = Some (DateCol (Some <$> ds)) → ds !! i = Some d →
  row_at t i !! col = Some (Timestamp d).
Proof.
  intros Hc Hd. eapply row_at_lookup; [done|]. simpl.
  by rewrite !list_lookup_fmap, Hd.
Qed.

Lemma row_at_int t i col vals v :
  columns t !! col = Some (IntCol vals) → vals !! i = Some v →
  row_at t i !! col = Some (Int v).
Proof.
  intros Hc Hv. eapply row_at_lookup; [done|]. simpl.
  by rewrite list_lookup_fmap, Hv.
Qed.

Section run_insight.
Context {L : Library}.

Lemma idx_extreme_run (want_max : bool) (idx vals : list Z) i label s :
  argbest (if want_max then Z.gtb else Z.ltb) 0 None (Some <$> vals) = Some i →
  idx !! i = Some label →
  idx_extreme want_max {| s_index := idx; s_values := IntCol vals |} s
  = (Return label, s).
Proof.
  intros Hi Hlabel. unfold idx_extreme, col_argbest. simpl.
  rewrite bind_run, Hi. simpl. by rewrite Hlabel.
Qed.

Lemma loc_run d label s t i :
  heap s !! d = Some t → NoDup (index t) → index t !! i = Some label →
  loc_ d label s = (Return (RowOf (row_at t i)), s).
Proof.
  intros Hd Hnd Hi. unfold loc_, deref. rewrite bind_run, Hd.
  by rewrite (positions_of_NoDup _ _ _ Hnd Hi).
Qed.

Lemma iloc_first d s t :
  heap s !! d = Some t → (0 < nrows t)%nat →
  iloc d 0 s = (Return (row_at t 0), s).
Proof.
  intros Hd Hn. unfold iloc, deref. rewrite bind_run, Hd.
  rewrite decide_True by lia. done.
Qed.

Lemma iloc_last d s t :
  heap s !! d = Some t → (0 < nrows t)%nat →
  iloc d (-1) s = (Return (row_at t (nrows t - 1)), s).
Proof.
  intros Hd Hn. unfold iloc, deref. rewrite bind_run, Hd.
  rewrite decide_False by lia. rewrite decide_True by lia.
  by replace (Z.to_nat (Z.of_nat (nrows t) + -1)) with (nrows t - 1)%nat by lia.
Qed.

Lemma row_getitem_run row col v s :
  row !! col = Some v → row_getitem row col s = (Return v, s).
Proof. intros Hv. unfold row_getitem. by rewrite Hv. Qed.

End run_insight.

(** What [insight_monthly_trend] displays for a table with unique row
    labels, dates that can all be coerced and an integer value column. *)
Lemma insight_monthly_trend_report
    {L : Library} {HL : LibraryOk L} s df t date_col value_col c ds vals :
  heap s !! df = Some t →
  wf_frame t →
  NoDup (index t) →
  columns t !! date_col = Some c →
  coerce_dates c = Some (Some <$> ds) →
  date_col ≠ value_col →
  columns t !! value_col = Some (IntCol vals) →
  vals ≠ [] →
  ∃ i_peak i_low d_first d_last d_peak d_low v_first v_last v_peak v_low,
    ds !! 0%nat = Some d_first ∧ last ds = Some d_last ∧
    vals !! 0%nat = Some v_first ∧ last vals = Some v_last ∧
    first_extreme id vals i_peak v_peak ∧ ds !! i_peak = Some d_peak ∧
    first_extreme Z.opp vals i_low v_low ∧ ds !! i_low = Some d_low ∧
    let r := insight_monthly_trend df date_col value_col s in
    r.1 = Return tt ∧
    emitted s r.2
      [display_markdown
         (insight_text
            (if float_of_int v_first <=? float_of_int v_last
             then "upward" else "downward")
            (strftime_Ym d_first) (float_of_int v_first)
            (strftime_Ym d_last) (float_of_int v_last)
            (strftime_Ym d_peak) (float_of_int v_peak)
            (strftime_Ym d_low) (float_of_int v_low))].
Proof.
  intros Hdf Hwf Hnd Hc Hds Hne Hvals Hnonempty.
  assert (length vals = nrows t) as Hlen_vals by apply (Hwf _ _ Hvals).
  assert (length ds = nrows t) as Hlen_ds.
  { rewrite <-(Hwf _ _ Hc), <-(coerce_dates_length _ _ Hds).
    by rewrite length_fmap. }
  assert (0 < nrows t)%nat as Hrows.
  { rewrite <-Hlen_vals. destruct vals; [done|simpl; lia]. }
  destruct (argbest_first_extreme id Z.gtb vals) as (i_peak & v_peak & Hpeak & Hpeak_spec);
    [intros x y; apply Z.gtb_ltb|done|].
  destruct (argbest_first_extreme Z.opp Z.ltb vals) as (i_low & v_low & Hlow & Hlow_spec);
    [intros x y|done|].
  { destruct (Z.ltb_spec x y), (Z.ltb_spec (- y) (- x)); lia. }
  assert (∀ i v, vals !! i = Some v →
            ∃ d label, ds !! i = Some d ∧ index t !! i = Some label)
    as Hrow.
  { intros i v Hi%lookup_lt_Some.
    destruct (lookup_lt_is_Some_2 ds i) as [d Hd]; [lia|].
    destruct (lookup_lt_is_Some_2 (index t) i) as [label Hlabel];
      [unfold nrows in *; lia|].
    by exists d, label. }
  destruct (lookup_lt_is_Some_2 vals 0) as [v_first Hv_first]; [lia|].
  destruct (lookup_lt_is_Some_2 vals (nrows t - 1)) as [v_last Hv_last]; [lia|].
  destruct (Hrow _ _ Hv_first) as (d_first & _ & Hd_first & _).
  destruct (Hrow _ _ Hv_last) as (d_last & _ & Hd_last & _).
  destruct (Hrow _ _ (proj1 Hpeak_spec)) as (d_peak & l_peak & Hd_peak & Hl_peak).
  destruct (Hrow _ _ (proj1 Hlow_spec)) as (d_low & l_low & Hd_low & Hl_low).
  exists i_peak, i_low, d_first, d_last, d_peak, d_low, v_first, v_last,
    v_peak, v_low.
  split_and!; try done.
  { by rewrite last_lookup, Hlen_ds, <-Nat.sub_1_r. }
  { by rewrite last_lookup, Hlen_vals, <-Nat.sub_1_r. }
  pose proof (proj1 Hpeak_spec) as Hv_peak.
  pose proof (proj1 Hlow_spec) as Hv_low.
  unfold insight_monthly_trend, idxmax, idxmin, emitted. simpl. run.
  set (d := fresh (dom (heap s))).
  set (t' := {| index := index t;
                columns := <[date_col:=DateCol (Some <$> ds)]> (columns t) |}).
  set (s' := {| heap := <[d:=t']> (<[d:=t]> (heap s)); trace := trace s |}).
  assert (heap s' !! d = Some t') as Hd by apply lookup_insert_eq.
  assert (columns t' !! date_col = Some (DateCol (Some <$> ds))) as Hdates
    by apply lookup_insert_eq.
  assert (columns t' !! value_col = Some (IntCol vals)) as Hvalues.
  { simpl. by rewrite lookup_insert_ne. }
  assert (0 < nrows t')%nat as Hrows' by done.
  change (nrows t') with (nrows t) in Hrows'.
  erewrite bind_Return by (by eapply getitem_run).
  erewrite bind_Return by (by eapply idx_extreme_run).
  erewrite bind_Return by (by eapply loc_run).
  erewrite bind_Return by (by eapply getitem_run).
  erewrite bind_Return by (by eapply idx_extreme_run).
  erewrite bind_Return by (by eapply loc_run).
  erewrite bind_Return by (by eapply iloc_first).
  erewrite bind_Return by (by eapply row_getitem_run, row_at_date).
  erewrite bind_Return by reflexivity.
  erewrite bind_Return by (by eapply iloc_last).
  erewrite bind_Return by (by eapply row_getitem_run, row_at_date).
  erewrite bind_Return by reflexivity.
  erewrite bind_Return by (by eapply iloc_first).
  erewrite bind_Return by (by eapply row_getitem_run, row_at_int).
  erewrite bind_Return by reflexivity.
  erewrite bind_Return by (by eapply iloc_last).
  erewrite bind_Return by (by eapply row_getitem_run, row_at_int).
  erewrite bind_Return by reflexivity.
  unfold loc_fmt_month, loc_float.
  erewrite bind_Return
    by (erewrite bind_Return by (by eapply row_getitem_run, row_at_date);
        reflexivity).
  erewrite bind_Return
    by (erewrite bind_Return by (by eapply row_getitem_run, row_at_int);
        reflexivity).
  erewrite bind_Return
    by (erewrite bind_Return by (by eapply row_getitem_run, row_at_date);
        reflexivity).
  erewrite bind_Return
    by (erewrite bind_Return by (by eapply row_getitem_run, row_at_int);
        reflexivity).
  done.
Qed.





(** ** The connection string *)

Lemma append_assoc (a b c : string) : (a +:+ b) +:+ c = a +:+ (b +:+ c).
Proof.
  induction a as [|x a IH]; [done|].
  change (String x ((a +:+ b) +:+ c) = String x (a +:+ (b +:+ c))).
  by rewrite IH.
Qed.

Lemma load_dotenv_set dotenv env key value :
  env !! key = Some value → db.load_dotenv dotenv env !! key = Some value.
Proof. intros Hkey. unfold db.load_dotenv. by apply lookup_union_Some_l. Qed.

Lemma load_dotenv_unset dotenv env key :
  env !! key = None → dotenv !! key = None →
  db.load_dotenv dotenv env !! key = None.
Proof.
  intros Henv Hfile. unfold db.load_dotenv. apply lookup_union_None.
  split; [done|]. by rewrite lookup_omap, Hfile.
Qed.

Lemma odbc_str_contains_database server database :
  db.contains (db.odbc_str server database) ("DATABASE=" +:+ database +:+ ";").
Proof.
  exists ("DRIVER={ODBC Driver 18 for SQL Server};SERVER=" +:+ server +:+ ";"),
    "Trusted_Connection=yes;TrustServerCertificate=yes;".
  unfold db.odbc_str. rewrite !append_assoc. reflexivity.
Qed.

Lemma odbc_str_trusted server database :
  ∃ settings,
    db.odbc_str server database
    = settings +:+ "Trusted_Connection=yes;TrustServerCertificate=yes;".
Proof.
  exists ("DRIVER={ODBC Driver 18 for SQL Server};SERVER=" +:+ server +:+
          ";DATABASE=" +:+ database +:+ ";").
  unfold db.odbc_str. rewrite !append_assoc. reflexivity.
Qed.

(** C6: with [SQL_DATABASE=TestDB] in the environment before the engine is
    made, the connection string names [DATABASE=TestDB] (whatever a [.env]
    file says) and not the default; with [SQL_SERVER] or [SQL_DATABASE]
    unset (in the environment and in the [.env] file) it names
    [localhost\SQL2025] or [AdventureWorks2025]; and in every case it ends
    with [Trusted_Connection=yes;TrustServerCertificate=yes;] and is what
    the engine URL carries. *)
Theorem make_engine_connection_string dotenv (env : gmap string string) :
  (env !! "SQL_DATABASE" = Some "TestDB" →
     (∃ server, db.connection_string dotenv env = db.odbc_str server "TestDB") ∧
     db.contains (db.connection_string dotenv env) "DATABASE=TestDB;") ∧
  (env !! "SQL_SERVER" = None → dotenv !! "SQL_SERVER" = None →
     ∃ database,
       db.connection_string dotenv env
       = db.odbc_str "localhost\SQL2025" database) ∧
  (env !! "SQL_DATABASE" = None → dotenv !! "SQL_DATABASE" = None →
     ∃ server,
       db.connection_string dotenv env
       = db.odbc_str server "AdventureWorks2025") ∧
  (env !! "SQL_SERVER" = None → dotenv !! "SQL_SERVER" = None →
   env !! "SQL_DATABASE" = None → dotenv !! "SQL_DATABASE" = None →
     db.connection_string dotenv env
     = db.odbc_str "localhost\SQL2025" "AdventureWorks2025") ∧
  (∃ settings,
     db.connection_string dotenv env
     = settings +:+ "Trusted_Connection=yes;TrustServerCertificate=yes;") ∧
  (db.make_engine dotenv env).1
  = db.create_engine ("mssql+pyodbc:///?odbc_connect=" +:+
                      db.quote_plus (db.connection_string dotenv env)).
Proof.
  unfold db.connection_string, db.make_engine, db.getenv. split_and!.
  - intros Hdb. rewrite (load_dotenv_set _ _ _ _ Hdb). simpl. split.
    + by eexists.
    + apply (odbc_str_contains_database _ "TestDB").
  - intros Hs1 Hs2. rewrite (load_dotenv_unset _ _ _ Hs1 Hs2). by eexists.
  - intros Hd1 Hd2. rewrite (load_dotenv_unset _ _ _ Hd1 Hd2). by eexists.
  - intros Hs1 Hs2 Hd1 Hd2.
    by rewrite (load_dotenv_unset _ _ _ Hs1 Hs2), (load_dotenv_unset _ _ _ Hd1 Hd2).
  - apply odbc_str_trusted.
  - done.
Qed.

Lemma make_engine_connection_string_witness :
  ((∃ server,
      db.connection_string {[ "SQL_DATABASE" := Some "Staging" ]}
        {[ "SQL_DATABASE" := "TestDB" ]}
      = db.odbc_str server "TestDB") ∧
   db.contains
     (db.connection_string {[ "SQL_DATABASE" := Some "Staging" ]}
        {[ "SQL_DATABASE" := "TestDB" ]})
     "DATABASE=TestDB;") ∧
  db.connection_string ∅ ∅
  = db.odbc_str "localhost\SQL2025" "AdventureWorks2025".
Proof.
  split.
  - apply (proj1 (make_engine_connection_string
                    {[ "SQL_DATABASE" := Some "Staging" ]}
                    {[ "SQL_DATABASE" := "TestDB" ]})).
    vm_compute. reflexivity.
  - apply (proj1 (proj2 (proj2 (proj2 (make_engine_connection_string ∅ ∅)))));
      reflexivity.
Defined.

(** ** Ties: what a stable [argsort] gives *)

Lemma increasing_lookup_lt (l : list nat) a b i j :
  StronglySorted lt l → l !! a = Some i → l !! b = Some j →
  (i < j)%nat → (a < b)%nat.
Proof.
  intros Hl Ha Hb Hij. destruct (decide (a < b)%nat) as [|Hba]; [done|].
  destruct (decide (a = b)) as [->|]; [simplify_eq; lia|].
  assert (j < i)%nat; [|lia].
  eapply (StronglySorted_lookup_lt lt l b a); eauto. lia.
Qed.

Lemma present_increasing {K} (rows : list (nat * option K)) :
  StronglySorted (λ r1 r2, r1.1 < r2.1)%nat rows →
  StronglySorted lt (present rows).*1.
Proof.
  induction 1 as [|[i o] rows Hrows IH Hi]; [constructor|].
  unfold present in *. destruct o as [k|]; csimpl; [|done].
  constructor; [done|]. apply Forall_forall. intros j Hj.
  apply list_elem_of_fmap in Hj as ([j' k'] & -> & Hin).
  apply list_elem_of_omap in Hin as ([j'' o''] & Hin & Heq).
  rewrite Forall_forall in Hi. specialize (Hi _ Hin).
  destruct o''; simplify_eq/=. done.
Qed.

Lemma missing_increasing {K} (rows : list (nat * option K)) :
  StronglySorted (λ r1 r2, r1.1 < r2.1)%nat rows →
  StronglySorted lt (missing rows).
Proof.
  induction 1 as [|[i o] rows Hrows IH Hi]; [constructor|].
  unfold missing in *. destruct o as [k|]; csimpl; [done|].
  constructor; [done|]. apply Forall_forall. intros j Hj.
  apply list_elem_of_omap in Hj as ([j'' o''] & Hin & Heq).
  rewrite Forall_forall in Hi. specialize (Hi _ Hin).
  destruct o''; simplify_eq/=. done.
Qed.

Section nargsort_stable.
Context {L : Library} {HL : LibraryOk L} (Hstable : ArgsortStable L).
Context {K : Type} (leb : K → K → bool).
Context {Htotal : Total (leb_rel leb)} {Htrans : Transitive (leb_rel leb)}.

Lemma leb_refl k : leb k k = true.
Proof. by destruct (Htotal k k). Qed.

(** Through [argsort]: positions [a] and [b] of the result hold the pairs
    at [a'] and [b']. *)
Lemma argsort_gather_lookup (pairs : list (nat * K)) a i :
  gather pairs.*1 (np_argsort leb pairs.*2) !! a = Some i →
  ∃ a' k, np_argsort leb pairs.*2 !! a = Some a' ∧ pairs !! a' = Some (i, k).
Proof.
  intros Ha. rewrite gather_lookup in Ha.
  - destruct (np_argsort leb pairs.*2 !! a) as [a'|] eqn:Ha'; [|done].
    simpl in Ha. rewrite list_lookup_fmap in Ha.
    destruct (pairs !! a') as [[i' k]|] eqn:Hpair; simplify_eq/=. eauto.
  - eapply Permutation_seq_bound. rewrite np_argsort_perm.
    by rewrite !length_fmap.
Qed.

Lemma argsort_gather_length (pairs : list (nat * K)) :
  length (gather pairs.*1 (np_argsort leb pairs.*2)) = length pairs.
Proof.
  rewrite gather_length.
  - by rewrite np_argsort_perm, length_seq, length_fmap.
  - eapply Permutation_seq_bound. rewrite np_argsort_perm.
    by rewrite !length_fmap.
Qed.

Lemma nargsort_present_stable (items : list (option K)) (ascending : bool)
    (a b i j : nat) (k : K) :
  let non_nan := if ascending then present (enumerate items)
                 else reverse (present (enumerate items)) in
  let indexer := gather non_nan.*1 (np_argsort leb non_nan.*2) in
  (if ascending then indexer else reverse indexer) !! a = Some i →
  (if ascending then indexer else reverse indexer) !! b = Some j →
  items !! i = Some (Some k) → items !! j = Some (Some k) →
  (i < j)%nat → (a < b)%nat.
Proof.
  intros non_nan indexer Ha Hb Hi Hj Hij. subst indexer non_nan.
  pose proof (present_increasing _ (enumerate_increasing items)) as Hinc.
  pose proof (present_spec items) as Hspec. rewrite Forall_lookup in Hspec.
  set (P := present (enumerate items)) in *.
  destruct ascending.
  - apply argsort_gather_lookup in Ha as (a' & ka & Ha & Ha').
    apply argsort_gather_lookup in Hb as (b' & kb & Hb & Hb').
    pose proof (Hspec _ _ Ha') as Hka. pose proof (Hspec _ _ Hb') as Hkb.
    simpl in Hka, Hkb. simplify_eq.
    eapply (Hstable K leb P.*2 a b a' b' k k); eauto.
    + by rewrite list_lookup_fmap, Ha'.
    + by rewrite list_lookup_fmap, Hb'.
    + apply leb_refl.
    + apply leb_refl.
    + eapply (increasing_lookup_lt _ a' b' i j Hinc); [| |done].
      * by rewrite list_lookup_fmap, Ha'.
      * by rewrite list_lookup_fmap, Hb'.
  - pose proof (argsort_gather_length (reverse P)) as Hlen.
    pose proof (lookup_lt_Some _ _ _ Ha) as Hla.
    pose proof (lookup_lt_Some _ _ _ Hb) as Hlb.
    rewrite length_reverse in Hla. rewrite length_reverse in Hlb.
    rewrite length_reverse in Hlen.
    rewrite reverse_lookup in Ha by done. rewrite reverse_lookup in Hb by done.
    apply argsort_gather_lookup in Ha as (a' & ka & Ha & Ha').
    apply argsort_gather_lookup in Hb as (b' & kb & Hb & Hb').
    pose proof (lookup_lt_Some _ _ _ Ha') as Hla'.
    pose proof (lookup_lt_Some _ _ _ Hb') as Hlb'.
    rewrite length_reverse in Hla'. rewrite length_reverse in Hlb'.
    pose proof Ha' as Hra. pose proof Hb' as Hrb.
    rewrite reverse_lookup in Hra by done. rewrite reverse_lookup in Hrb by done.
    pose proof (Hspec _ _ Hra) as Hka. pose proof (Hspec _ _ Hrb) as Hkb.
    simpl in Hka, Hkb. simplify_eq.
    assert (length P - S a' < length P - S b')%nat as Hrev.
    { eapply (increasing_lookup_lt _ _ _ i j Hinc); [| |done].
      - by rewrite list_lookup_fmap, Hra.
      - by rewrite list_lookup_fmap, Hrb. }
    set (n := length (gather (reverse P).*1 (np_argsort leb (reverse P).*2))) in *.
    assert (n - S b < n - S a)%nat; [|lia].
    eapply (Hstable K leb (reverse P).*2 _ _ b' a' k k); eauto.
    + by rewrite list_lookup_fmap, Hb'.
    + by rewrite list_lookup_fmap, Ha'.
    + apply leb_refl.
    + apply leb_refl.
    + lia.
Qed.

Lemma nargsort_stable (items : list (option K)) (ascending : bool) :
  stable_order items (nargsort leb items ascending).
Proof.
  intros a b i j Ha Hb Hi Hj Hkeys Hij. unfold nargsort in Ha, Hb.
  set (non_nan := if ascending then present (enumerate items)
                  else reverse (present (enumerate items))) in *.
  set (indexer := gather non_nan.*1 (np_argsort leb non_nan.*2)) in *.
  set (sorted := if ascending then indexer else reverse indexer) in *.
  assert (∀ c n, sorted !! c = Some n → ∃ k, items !! n = Some (Some k))
    as Hsorted.
  { intros c n Hc. assert (n ∈ (present (enumerate items)).*1) as Hn.
    { apply list_elem_of_lookup_2 in Hc. unfold sorted, indexer, non_nan in Hc.
      destruct ascending.
      - by rewrite argsort_gather_Permutation in Hc.
      - rewrite elem_of_reverse, argsort_gather_Permutation in Hc.
        by rewrite fmap_reverse, elem_of_reverse in Hc. }
    apply list_elem_of_fmap in Hn as ([n' k] & -> & Hin).
    exists k. pose proof (present_spec items) as Hspec.
    rewrite Forall_forall in Hspec. apply (Hspec _ Hin). }
  assert (∀ c n, missing (enumerate items) !! c = Some n →
            items !! n = Some None) as Hmissing.
  { intros c n Hc. pose proof (missing_spec items) as Hspec.
    rewrite Forall_lookup in Hspec. by eapply Hspec. }
  destruct (lookup_lt_is_Some_2 items i Hi) as [oi Hoi].
  rewrite Hoi in Hkeys. symmetry in Hkeys.
  destruct (decide (a < length sorted)%nat) as [Hla|Hla];
    destruct (decide (b < length sorted)%nat) as [Hlb|Hlb].
  - rewrite lookup_app_l in Ha, Hb by done.
    destruct (Hsorted _ _ Ha) as [k Hk]. simplify_eq.
    eapply (nargsort_present_stable items ascending a b i j k); eauto.
  - lia.
  - rewrite lookup_app_l in Hb by done. rewrite lookup_app_r in Ha by lia.
    destruct (Hsorted _ _ Hb) as [k Hk]. pose proof (Hmissing _ _ Ha).
    simplify_eq.
  - rewrite lookup_app_r in Ha, Hb by lia.
    pose proof (missing_increasing _ (enumerate_increasing items)) as Hinc.
    pose proof (increasing_lookup_lt _ _ _ _ _ Hinc Ha Hb Hij). lia.
Qed.

End nargsort_stable.

Lemma col_nargsort_stable {L : Library} {HL : LibraryOk L} key ascending :
  ArgsortStable L → col_stable_order key (col_nargsort key ascending).
Proof.
  intros Hstable. destruct key as [xs|xs|xs]; simpl.
  - apply (nargsort_stable Hstable Z.leb).
  - apply (nargsort_stable Hstable String.leb).
  - apply (nargsort_stable Hstable Z.leb).
Qed.

(** Insertion that stops at the first key not below the new one leaves
    equal keys in input order. *)
Section insertion_stable.
Context {K : Type} (leb : K → K → bool).
Context {Htotal : Total (leb_rel leb)} {Htrans : Transitive (leb_rel leb)}.

Lemma insert_by_tie_order x l :
  Forall (λ y, x.1 < y.1)%nat l →
  StronglySorted (tie_order leb) l →
  StronglySorted (tie_order leb) (insert_by (λ a b, leb a.2 b.2) x l).
Proof.
  intros Hx. induction 1 as [|y l Hl IH Hy]; simpl.
  { repeat constructor. }
  apply Forall_cons in Hx as [Hxy Hx].
  destruct (leb x.2 y.2) eqn:Hleb.
  - constructor; [by constructor|]. constructor; [by split|].
    rewrite Forall_forall in Hx, Hy. apply Forall_forall. intros z Hz.
    split; [|intros; by apply Hx].
    destruct (Hy z Hz) as [Hyz _]. exact (Htrans _ _ _ Hleb Hyz).
  - constructor; [by apply IH|]. rewrite insert_by_Permutation.
    constructor; [|done]. split; [|congruence].
    destruct (Htotal x.2 y.2) as [H|H]; [|done]. unfold leb_rel in H. congruence.
Qed.

Lemma insertion_sort_tie_order rows :
  StronglySorted (λ r1 r2, r1.1 < r2.1)%nat rows →
  StronglySorted (tie_order leb) (insertion_sort (λ a b, leb a.2 b.2) rows).
Proof.
  induction 1 as [|x rows Hrows IH Hx]; simpl; [constructor|].
  apply insert_by_tie_order; [|done]. by rewrite insertion_sort_Permutation.
Qed.

Lemma insertion_argsort_stable (l : list K) a b i j x y :
  insertion_argsort K leb l !! a = Some i →
  insertion_argsort K leb l !! b = Some j →
  l !! i = Some x → l !! j = Some y →
  leb x y = true → leb y x = true → (i < j)%nat → (a < b)%nat.
Proof.
  unfold insertion_argsort. intros Ha Hb Hx Hy Hxy Hyx Hij.
  set (rows := insertion_sort (λ a b, leb a.2 b.2) (enumerate l)) in *.
  rewrite list_lookup_fmap in Ha, Hb.
  destruct (rows !! a) as [[i' x']|] eqn:Hra; simplify_eq/=.
  destruct (rows !! b) as [[j' y']|] eqn:Hrb; simplify_eq/=.
  assert (Forall (λ r, l !! r.1 = Some r.2) rows) as Hrows.
  { unfold rows. rewrite insertion_sort_Permutation. apply enumerate_spec. }
  rewrite Forall_lookup in Hrows.
  pose proof (Hrows _ _ Hra) as Hx'. pose proof (Hrows _ _ Hrb) as Hy'.
  simpl in Hx', Hy'. simplify_eq.
  destruct (decide (a < b)%nat) as [|Hba]; [done|].
  destruct (decide (a = b)) as [->|]; [simplify_eq; lia|].
  pose proof (insertion_sort_tie_order _ (enumerate_increasing l)) as Hsorted.
  fold rows in Hsorted.
  destruct (StronglySorted_lookup_lt _ rows b a _ _ Hsorted Hrb Hra)
    as [_ Hlt]; [lia|].
  simpl in Hlt. specialize (Hlt Hxy). lia.
Qed.

End insertion_stable.

Lemma stable_library_stable : ArgsortStable stable_library.
Proof.
  intros K leb l a b i j x y Htotal Htrans.
  by apply insertion_argsort_stable.
Qed.




(** ** Missing columns *)

Lemma nothing_shown_nil : nothing_shown [].
Proof. split; [|intros text]; apply not_elem_of_nil. Qed.

Lemma nothing_shown_figure figsize : nothing_shown [plt_figure figsize].
Proof.
  split; [|intros text]; intros Hin; apply list_elem_of_singleton in Hin;
    discriminate Hin.
Qed.

Lemma nothing_shown_bars figsize evs :
  Forall (λ e, ∃ x h w l, e = ax_bar_at x h w l) evs →
  nothing_shown (plt_figure figsize :: evs).
Proof.
  intros Hevs. rewrite Forall_forall in Hevs.
  split; [|intros text]; intros Hin; apply elem_of_cons in Hin as [Heq|Hin];
    first [ discriminate Heq
          | by destruct (Hevs _ Hin) as (? & ? & ? & ? & ?) ].
Qed.

Section missing_columns.
Context {L : Library}.

(** The loop of [grouped_bar_wide] stops at the first column that is not
    there; what it drew before are bars. *)
Lemma grouped_bars_KeyError d t x_idx width (pairs : list (string * string)) :
  lacks t pairs.*1 →
  ∀ start s,
    heap s !! d = Some t →
    ∃ k evs s',
      for_enumerate start pairs (λ i col_lab,
        sc ← getitem d col_lab.1;
        emit (ax_bar_at
                ((λ q, Qred (q + inject_Z (Z.of_nat i) * width)%Q) <$> x_idx)
                (s_values sc) width col_lab.2)) s
      = (Raise (KeyError k), s') ∧
      k ∈ pairs.*1 ∧ columns t !! k = None ∧
      trace s' = trace s ++ evs ∧
      Forall (λ e, ∃ x h w l, e = ax_bar_at x h w l) evs.
Proof.
  induction pairs as [|[col lab] pairs IH]; intros (k & Hk & Hnone) start s Hd.
  { by apply elem_of_nil in Hk. }
  simpl. destruct (columns t !! col) as [c|] eqn:Hcol.
  - set (bar := ax_bar_at
                  ((λ q, Qred (q + inject_Z (Z.of_nat start) * width)%Q) <$> x_idx)
                  c width lab).
    set (s1 := {| heap := heap s; trace := trace s ++ [bar] |}).
    csimpl in Hk. apply elem_of_cons in Hk as [->|Hk]; [congruence|].
    destruct (IH (ex_intro _ k (conj Hk Hnone)) (S start) s1)
      as (k' & evs & s' & Hrun & Hk' & Hnone' & Htrace & Hevs); [exact Hd|].
    exists k', (bar :: evs), s'. split_and!; [| |done| |].
    + erewrite bind_Return; [exact Hrun|].
      erewrite bind_Return by (by eapply getitem_run). reflexivity.
    + csimpl. by right.
    + rewrite Htrace. simpl. by rewrite <-app_assoc.
    + constructor; [by unfold bar; eauto|done].
  - exists col, [], s. split_and!; [| |done| |by constructor].
    + erewrite bind_Raise; [done|].
      erewrite bind_Raise by (by eapply getitem_KeyError). reflexivity.
    + csimpl. by left.
    + by rewrite app_nil_r.
Qed.

Lemma bar_vertical_missing_column s df t x y title xlabel ylabel sort_by
    ascending figsize rotate_x :
  heap s !! df = Some t →
  lacks t (x :: y :: if truthy sort_by then [default "" sort_by] else []) →
  fails_with_KeyError t
    (x :: y :: if truthy sort_by then [default "" sort_by] else []) s
    (bar_vertical df x y title xlabel ylabel sort_by ascending figsize
       rotate_x s).
Proof.
  intros Hdf (k & Hk & Hnone). unfold fails_with_KeyError, emitted, bar_vertical.
  destruct (truthy sort_by) eqn:Hsort.
  - destruct (columns t !! default "" sort_by) as [key|] eqn:Hkey.
    + destruct (columns t !! x) as [cx|] eqn:Hx;
        [destruct (columns t !! y) as [cy|] eqn:Hy|]; run.
      * all_there Hk.
      * exists y, [plt_figure figsize].
        split_and!; [done|listed|done|done|apply nothing_shown_figure].
      * exists x, [plt_figure figsize].
        split_and!; [done|listed|done|done|apply nothing_shown_figure].
    + run. exists (default "" sort_by), [].
      split_and!; [done|listed|done|by rewrite app_nil_r|apply nothing_shown_nil].
  - destruct (columns t !! x) as [cx|] eqn:Hx;
      [destruct (columns t !! y) as [cy|] eqn:Hy|]; run.
    + all_there Hk.
    + exists y, [plt_figure figsize].
      split_and!; [done|listed|done|done|apply nothing_shown_figure].
    + exists x, [plt_figure figsize].
      split_and!; [done|listed|done|done|apply nothing_shown_figure].
Qed.

Lemma bar_horizontal_missing_column s df t x y title xlabel ylabel sort_desc
    figsize :
  heap s !! df = Some t →
  lacks t [x; y] →
  fails_with_KeyError t [x; y] s
    (bar_horizontal df x y title xlabel ylabel sort_desc figsize s).
Proof.
  intros Hdf (k & Hk & Hnone). unfold fails_with_KeyError, emitted, bar_horizontal.
  destruct (columns t !! x) as [cx|] eqn:Hx;
    [destruct (columns t !! y) as [cy|] eqn:Hy|]; run.
  - all_there Hk.
  - exists y, [plt_figure figsize].
    split_and!; [done|listed|done|done|apply nothing_shown_figure].
  - exists x, [].
    split_and!; [done|listed|done|by rewrite app_nil_r|apply nothing_shown_nil].
Qed.

Lemma scatter_plot_missing_column s df t x y title xlabel ylabel figsize alpha :
  heap s !! df = Some t →
  lacks t [x; y] →
  fails_with_KeyError t [x; y] s
    (scatter_plot df x y title xlabel ylabel figsize alpha s).
Proof.
  intros Hdf (k & Hk & Hnone). unfold fails_with_KeyError, emitted, scatter_plot.
  destruct (columns t !! x) as [cx|] eqn:Hx;
    [destruct (columns t !! y) as [cy|] eqn:Hy|]; run.
  - all_there Hk.
  - exists y, [plt_figure figsize].
    split_and!; [done|listed|done|done|apply nothing_shown_figure].
  - exists x, [plt_figure figsize].
    split_and!; [done|listed|done|done|apply nothing_shown_figure].
Qed.

Lemma grouped_bar_wide_missing_column s df t x y_cols title xlabel ylabel
    legend_title figsize rotate_x y_col_labels :
  heap s !! df = Some t →
  lacks t (x :: y_cols) →
  let r := grouped_bar_wide df x y_cols title xlabel ylabel legend_title
             figsize rotate_x y_col_labels s in
  (label_count_differs t x y_cols y_col_labels → fails_with_ValueError s r) ∧
  (¬ label_count_differs t x y_cols y_col_labels →
     fails_with_KeyError t (x :: y_cols) s r).
Proof.
  intros Hdf (k & Hk & Hnone).
  unfold label_count_differs, fails_with_ValueError, fails_with_KeyError,
    emitted, grouped_bar_wide. simpl.
  destruct (columns t !! x) as [cx|] eqn:Hx.
  - destruct (Nat.eqb_spec (length (default y_cols y_col_labels)) (length y_cols))
      as [Hlen|Hlen]; run.
    + split; [by intros [_ ?]|]. intros _.
      apply elem_of_cons in Hk as [->|Hk]; [congruence|].
      match goal with
      | |- context [(for_enumerate 0 ?pairs ?body ≫= ?rest) ?s1] =>
          destruct (grouped_bars_KeyError (fresh (dom (heap s))) t
                      (arange (length (astype_str
                         {| s_index := index t; s_values := cx |})))
                      (bar_width (length y_cols)) pairs) with (start := 0%nat)
                      (s := s1)
            as (k' & evs & s' & Hrun & Hk' & Hnone' & Htrace & Hevs)
      end.
      { exists k. rewrite fst_zip by lia. done. }
      { apply lookup_insert_eq. }
      rewrite fst_zip in Hk' by lia.
      erewrite bind_Raise by exact Hrun. simpl.
      exists k', (plt_figure figsize :: evs).
      split_and!; [done|by right|done| |by apply nothing_shown_bars].
      rewrite Htrace. simpl. by rewrite <-app_assoc.
    + split; [|intros []; by split]. intros _. eexists.
      split; [done|]. by rewrite app_nil_r.
  - run. split; [by intros [[? ?] _]|]. intros _. exists x, [].
    split_and!; [done|listed|done|by rewrite app_nil_r|apply nothing_shown_nil].
Qed.

Lemma line_plot_monthly_missing_column s df t date_col value_col title xlabel
    ylabel month_interval figsize marker :
  heap s !! df = Some t →
  lacks t [date_col; value_col] →
  let r := line_plot_monthly df date_col value_col title xlabel ylabel
             month_interval figsize marker s in
  (dates_unreadable t date_col → fails_with_ValueError s r) ∧
  (¬ dates_unreadable t date_col →
     fails_with_KeyError t [date_col; value_col] s r).
Proof.
  intros Hdf (k & Hk & Hnone).
  unfold dates_unreadable, fails_with_ValueError, fails_with_KeyError, emitted,
    line_plot_monthly. simpl.
  destruct (columns t !! date_col) as [c|] eqn:Hc.
  - destruct (coerce_dates c) as [dates|] eqn:Hdates.
    + assert (k = value_col ∧ value_col ≠ date_col) as [-> Hne].
      { apply elem_of_cons in Hk as [->|Hk]; [congruence|].
        apply list_elem_of_singleton in Hk as ->. split; [done|congruence]. }
      assert (<[date_col:=DateCol dates]> (columns t) !! value_col = None)
        as Hvalue by by rewrite lookup_insert_ne.
      run. split; [intros (c' & [= <-] & ?); congruence|]. intros _.
      exists value_col, [plt_figure figsize].
      split_and!; [done|listed|done|done|apply nothing_shown_figure].
    + run. split; [|intros []; by exists c]. intros _. eexists.
      split; [done|]. by rewrite app_nil_r.
  - run. split; [by intros (c & ? & _)|]. intros _. exists date_col, [].
    split_and!; [done|listed|done|by rewrite app_nil_r|apply nothing_shown_nil].
Qed.

Lemma insight_monthly_trend_missing_column s df t date_col value_col :
  heap s !! df = Some t →
  lacks t [date_col; value_col] →
  let r := insight_monthly_trend df date_col value_col s in
  (dates_unreadable t date_col → fails_with_ValueError s r) ∧
  (¬ dates_unreadable t date_col →
     fails_with_KeyError t [date_col; value_col] s r).
Proof.
  intros Hdf (k & Hk & Hnone).
  unfold dates_unreadable, fails_with_ValueError, fails_with_KeyError, emitted,
    insight_monthly_trend. simpl.
  destruct (columns t !! date_col) as [c|] eqn:Hc.
  - destruct (coerce_dates c) as [dates|] eqn:Hdates.
    + assert (k = value_col ∧ value_col ≠ date_col) as [-> Hne].
      { apply elem_of_cons in Hk as [->|Hk]; [congruence|].
        apply list_elem_of_singleton in Hk as ->. split; [done|congruence]. }
      assert (<[date_col:=DateCol dates]> (columns t) !! value_col = None)
        as Hvalue by by rewrite lookup_insert_ne.
      run. split; [intros (c' & [= <-] & ?); congruence|]. intros _.
      exists value_col, [].
      split_and!; [done|listed|done|by rewrite app_nil_r|apply nothing_shown_nil].
    + run. split; [|intros []; by exists c]. intros _. eexists.
      split; [done|]. by rewrite app_nil_r.
  - run. split; [by intros (c & ? & _)|]. intros _. exists date_col, [].
    split_and!; [done|listed|done|by rewrite app_nil_r|apply nothing_shown_nil].
Qed.

End missing_columns.

(** C5 (as amended): for each of the six helpers and every table that
    lacks one of the requested columns, the call raises and shows nothing.
    It raises [KeyError] for a missing column, unless a check that comes
    before the lookup of that column fails first: in [grouped_bar_wide],
    once [x] is found, a count of legend labels that differs from that of
    [y_cols]; in [line_plot_monthly] and [insight_monthly_trend], a date
    column that cannot be coerced.  Those raise [ValueError] before
    anything is drawn.  ([sort_by] is requested when it is set.) *)
Theorem missing_column_raises {L : Library} s df t :
  heap s !! df = Some t →
  (∀ x y title xlabel ylabel sort_by ascending figsize rotate_x,
     lacks t (x :: y :: if truthy sort_by then [default "" sort_by] else []) →
     fails_with_KeyError t
       (x :: y :: if truthy sort_by then [default "" sort_by] else []) s
       (bar_vertical df x y title xlabel ylabel sort_by ascending figsize
          rotate_x s)) ∧
  (∀ x y title xlabel ylabel sort_desc figsize,
     lacks t [x; y] →
     fails_with_KeyError t [x; y] s
       (bar_horizontal df x y title xlabel ylabel sort_desc figsize s)) ∧
  (∀ date_col value_col title xlabel ylabel month_interval figsize marker,
     lacks t [date_col; value_col] →
     let r := line_plot_monthly df date_col value_col title xlabel ylabel
                month_interval figsize marker s in
     (dates_unreadable t date_col → fails_with_ValueError s r) ∧
     (¬ dates_unreadable t date_col →
        fails_with_KeyError t [date_col; value_col] s r)) ∧
  (∀ x y_cols title xlabel ylabel legend_title figsize rotate_x y_col_labels,
     lacks t (x :: y_cols) →
     let r := grouped_bar_wide df x y_cols title xlabel ylabel legend_title
                figsize rotate_x y_col_labels s in
     (label_count_differs t x y_cols y_col_labels → fails_with_ValueError s r) ∧
     (¬ label_count_differs t x y_cols y_col_labels →
        fails_with_KeyError t (x :: y_cols) s r)) ∧
  (∀ x y title xlabel ylabel figsize alpha,
     lacks t [x; y] →
     fails_with_KeyError t [x; y] s
       (scatter_plot df x y title xlabel ylabel figsize alpha s)) ∧
  (∀ date_col value_col,
     lacks t [date_col; value_col] →
     let r := insight_monthly_trend df date_col value_col s in
     (dates_unreadable t date_col → fails_with_ValueError s r) ∧
     (¬ dates_unreadable t date_col →
        fails_with_KeyError t [date_col; value_col] s r)).
Proof.
  intros Hdf. split_and!; intros.
  - by apply bar_vertical_missing_column.
  - by apply bar_horizontal_missing_column.
  - by apply line_plot_monthly_missing_column.
  - by apply grouped_bar_wide_missing_column.
  - by apply scatter_plot_missing_column.
  - by apply insight_monthly_trend_missing_column.
Qed.

Lemma missing_column_raises_witness :
  fails_with_KeyError tied_sales ["Region"; "Sales"]
    (state_with 1%nat tied_sales)
    (bar_vertical (L := stable_library) 1%nat "Region" "Sales"
       "Sales by region" None None None false (10, 5) 0
       (state_with 1%nat tied_sales)).
Proof.
  refine (proj1 (missing_column_raises (L := stable_library)
                   (state_with 1%nat tied_sales) 1%nat tied_sales _)
            "Region" "Sales" "Sales by region" None None None false (10, 5) 0 _).
  - reflexivity.
  - exists "Region". split; [listed|reflexivity].
Defined.

(** C5, counterexample: the table has no column ["Profit"], and the call
    fails with the [ValueError] of the label count, not with a
    [KeyError]. *)
Lemma missing_column_is_not_always_KeyError :
  let r := grouped_bar_wide (L := stable_library) 1%nat "Territory"
             ["Sales"; "Profit"] "Sales and profit" None "" "" (11, 5) 0
             (Some ["Sales"]) (state_with 1%nat tied_sales) in
  lacks tied_sales ["Territory"; "Sales"; "Profit"] ∧
  r.1 = Raise (ValueError "y_col_labels must have the same length as y_cols") ∧
  (∀ k, r.1 ≠ Raise (KeyError k)).
Proof.
  assert ((grouped_bar_wide (L := stable_library) 1%nat "Territory"
             ["Sales"; "Profit"] "Sales and profit" None "" "" (11, 5) 0
             (Some ["Sales"]) (state_with 1%nat tied_sales)).1
          = Raise (ValueError "y_col_labels must have the same length as y_cols"))
    as Hrun by by vm_compute.
  simpl. split_and!.
  - exists "Profit". split; [listed|reflexivity].
  - exact Hrun.
  - intros k. rewrite Hrun. discriminate.
Qed.

(** * Further properties *)

(** ** The engine URL *)

Lemma quote_plus_char_safe c rest :
  all_chars url_safe (db.quote_plus (String c rest))
  = all_chars url_safe (db.quote_plus rest).
Proof. destruct c as [[] [] [] [] [] [] [] []]; reflexivity. Qed.

Lemma quote_plus_char_round_trip c rest :
  unquote_plus (db.quote_plus (String c rest))
  = String c (unquote_plus (db.quote_plus rest)).
Proof. destruct c as [[] [] [] [] [] [] [] []]; reflexivity. Qed.

Lemma quote_plus_safe s : all_chars url_safe (db.quote_plus s) = true.
Proof.
  induction s as [|c s IH]; [done|]. by rewrite quote_plus_char_safe.
Qed.

Lemma quote_plus_round_trip s : unquote_plus (db.quote_plus s) = s.
Proof.
  induction s as [|c s IH]; [done|]. by rewrite quote_plus_char_round_trip, IH.
Qed.

(** X1: whatever the environment and the [.env] file hold, the URL of the
    engine is the prefix [mssql+pyodbc:///?odbc_connect=] followed by
    characters that are safe in a URL query only: letters, digits,
    [_.-~], ['%'] and ['+']. *)
Theorem make_engine_url_is_safe dotenv (env : gmap string string) :
  ∃ query,
    db.url (db.make_engine dotenv env).1
    = "mssql+pyodbc:///?odbc_connect=" +:+ query ∧
    all_chars url_safe query = true.
Proof.
  eexists. split; [reflexivity|]. apply quote_plus_safe.
Qed.

(** X2: the query of the engine URL reads back, by [unquote_plus], as the
    connection string that was assembled: no server or database name is
    altered on the way into the URL. *)
Theorem make_engine_url_round_trip dotenv (env : gmap string string) :
  ∃ query,
    db.url (db.make_engine dotenv env).1
    = "mssql+pyodbc:///?odbc_connect=" +:+ query ∧
    unquote_plus query = db.connection_string dotenv env.
Proof.
  eexists. split; [reflexivity|]. apply quote_plus_round_trip.
Qed.

(** ** The environment and the [.env] file *)

(** X3: a value set in the process environment is used as it is, an empty
    one too, and whatever the [.env] file assigns to the same variable. *)
Theorem make_engine_uses_environment_values dotenv (env : gmap string string) :
  (∀ server, env !! "SQL_SERVER" = Some server →
     ∃ database, db.connection_string dotenv env = db.odbc_str server database) ∧
  (∀ database, env !! "SQL_DATABASE" = Some database →
     ∃ server, db.connection_string dotenv env = db.odbc_str server database).
Proof.
  unfold db.connection_string, db.getenv. split.
  - intros server Hserver. rewrite (load_dotenv_set _ _ _ _ Hserver). by eexists.
  - intros database Hdb. rewrite (load_dotenv_set _ _ _ _ Hdb). by eexists.
Qed.

Lemma make_engine_uses_environment_values_witness :
  ∃ server,
    db.connection_string {[ "SQL_DATABASE" := Some "Staging" ]}
      {[ "SQL_DATABASE" := "" ]}
    = db.odbc_str server "".
Proof.
  apply (proj2 (make_engine_uses_environment_values
                  {[ "SQL_DATABASE" := Some "Staging" ]}
                  {[ "SQL_DATABASE" := "" ]})).
  vm_compute. reflexivity.
Defined.

Lemma load_dotenv_from_file dotenv (env : gmap string string) key value :
  env !! key = None → dotenv !! key = Some (Some value) →
  db.load_dotenv dotenv env !! key = Some value.
Proof.
  intros Henv Hfile. unfold db.load_dotenv.
  rewrite lookup_union_r by done. by rewrite lookup_omap, Hfile.
Qed.

Lemma load_dotenv_no_value dotenv (env : gmap string string) key :
  env !! key = None → dotenv !! key = Some None →
  db.load_dotenv dotenv env !! key = None.
Proof.
  intros Henv Hfile. unfold db.load_dotenv. apply lookup_union_None.
  split; [done|]. by rewrite lookup_omap, Hfile.
Qed.

(** X4: a variable that the process environment does not set is taken from
    the [.env] file; a key that the file lists without a value counts as
    unset, and the default is used. *)
Theorem make_engine_falls_back_to_dotenv dotenv (env : gmap string string) :
  (∀ server, env !! "SQL_SERVER" = None →
     dotenv !! "SQL_SERVER" = Some (Some server) →
     ∃ database, db.connection_string dotenv env = db.odbc_str server database) ∧
  (∀ database, env !! "SQL_DATABASE" = None →
     dotenv !! "SQL_DATABASE" = Some (Some database) →
     ∃ server, db.connection_string dotenv env = db.odbc_str server database) ∧
  (env !! "SQL_SERVER" = None → dotenv !! "SQL_SERVER" = Some None →
     ∃ database,
       db.connection_string dotenv env
       = db.odbc_str "localhost\SQL2025" database) ∧
  (env !! "SQL_DATABASE" = None → dotenv !! "SQL_DATABASE" = Some None →
     ∃ server,
       db.connection_string dotenv env
       = db.odbc_str server "AdventureWorks2025").
Proof.
  unfold db.connection_string, db.getenv. split_and!.
  - intros server Henv Hfile.
    rewrite (load_dotenv_from_file _ _ _ _ Henv Hfile). by eexists.
  - intros database Henv Hfile.
    rewrite (load_dotenv_from_file _ _ _ _ Henv Hfile). by eexists.
  - intros Henv Hfile. rewrite (load_dotenv_no_value _ _ _ Henv Hfile).
    by eexists.
  - intros Henv Hfile. rewrite (load_dotenv_no_value _ _ _ Henv Hfile).
    by eexists.
Qed.

Lemma make_engine_falls_back_to_dotenv_witness :
  ∃ server,
    db.connection_string {[ "SQL_DATABASE" := Some "Staging" ]} ∅
    = db.odbc_str server "Staging".
Proof.
  apply (proj1 (proj2 (make_engine_falls_back_to_dotenv
                         {[ "SQL_DATABASE" := Some "Staging" ]} ∅)));
    vm_compute; reflexivity.
Defined.

Lemma load_dotenv_idempotent dotenv (env : gmap string string) :
  db.load_dotenv dotenv (db.load_dotenv dotenv env) = db.load_dotenv dotenv env.
Proof.
  unfold db.load_dotenv. by rewrite <-(assoc_L (∪)), (idemp_L (∪)).
Qed.

(** X5: making the engine never overwrites a variable that is set: the
    environment it leaves has every variable of before with its value.
    Making it again from that environment gives the same engine and
    leaves the environment as it is. *)
Theorem make_engine_keeps_environment dotenv (env : gmap string string) :
  env ⊆ (db.make_engine dotenv env).2 ∧
  db.make_engine dotenv (db.make_engine dotenv env).2
  = db.make_engine dotenv env.
Proof.
  unfold db.make_engine. simpl. split.
  - apply map_union_subseteq_l.
  - by rewrite load_dotenv_idempotent.
Qed.

(** ** The monthly insight at the edges *)

Lemma positions_of_found (idx : list Z) i label :
  idx !! i = Some label → i ∈ positions_of label idx.
Proof.
  intros Hi. unfold positions_of. apply list_elem_of_omap.
  exists (i, label). split; [by apply enumerate_elem_of|].
  simpl. by rewrite decide_True.
Qed.

Section loc_edges.
Context {L : Library}.

(** [d.loc[label]] finds a label that is in the index. *)
Lemma loc_returns d label s t i :
  heap s !! d = Some t → index t !! i = Some label →
  ∃ r, loc_ d label s = (Return r, s).
Proof.
  intros Hd Hi. unfold loc_, deref. rewrite bind_run, Hd.
  pose proof (positions_of_found _ _ _ Hi) as Hin.
  destruct (positions_of label (index t)) as [|k [|k' ps]]; [|by eexists..].
  by apply elem_of_nil in Hin.
Qed.

(** For a label that two rows carry, it returns a frame. *)
Lemma loc_duplicate d label s t i j :
  heap s !! d = Some t → i ≠ j →
  index t !! i = Some label → index t !! j = Some label →
  ∃ ps, loc_ d label s = (Return (RowsOf ps), s).
Proof.
  intros Hd Hij Hi Hj. unfold loc_, deref. rewrite bind_run, Hd.
  pose proof (positions_of_found _ _ _ Hi) as Hini.
  pose proof (positions_of_found _ _ _ Hj) as Hinj.
  destruct (positions_of label (index t)) as [|k [|k' ps]]; [| |by eexists].
  - by apply elem_of_nil in Hini.
  - apply list_elem_of_singleton in Hini, Hinj. congruence.
Qed.

End loc_edges.

Lemma first_extreme_unique key vals i v i' v' :
  first_extreme key vals i v → first_extreme key vals i' v' → i = i'.
Proof.
  intros (Hi & Hmax & Hbefore) (Hi' & Hmax' & Hbefore').
  destruct (Nat.lt_trichotomy i i') as [Hlt|[->|Hlt]]; [|done|].
  - pose proof (Hbefore' _ _ Hlt Hi).
    pose proof (Hmax v' (list_elem_of_lookup_2 _ _ _ Hi')). lia.
  - pose proof (Hbefore _ _ Hlt Hi').
    pose proof (Hmax' v (list_elem_of_lookup_2 _ _ _ Hi)). lia.
Qed.

(** X6: for an empty table [insight_monthly_trend] raises the
    [ValueError] of [idxmax] on an empty column and displays nothing. *)
Theorem insight_monthly_trend_empty_table
    {L : Library} s df t date_col value_col c dates vals :
  heap s !! df = Some t →
  wf_frame t →
  nrows t = 0%nat →
  columns t !! date_col = Some c →
  coerce_dates c = Some dates →
  date_col ≠ value_col →
  columns t !! value_col = Some (IntCol vals) →
  let r := insight_monthly_trend df date_col value_col s in
  r.1 = Raise (ValueError "attempt to get argmax of an empty sequence") ∧
  emitted s r.2 [].
Proof.
  intros Hdf Hwf Hrows Hc Hdates Hne Hvals.
  assert (vals = []) as ->.
  { apply nil_length_inv. rewrite <-Hrows. apply (Hwf _ _ Hvals). }
  unfold insight_monthly_trend, idxmax, emitted. simpl. run.
  erewrite bind_Return.
  2: { eapply getitem_run; [apply lookup_insert_eq|].
       simpl. by rewrite lookup_insert_ne. }
  split; [done|]. by rewrite app_nil_r.
Qed.

Lemma insight_monthly_trend_empty_table_witness :
  let r := insight_monthly_trend (L := stable_library) 1%nat "MonthStart"
             "TotalSales" (state_with 1%nat no_sales) in
  r.1 = Raise (ValueError "attempt to get argmax of an empty sequence") ∧
  emitted (state_with 1%nat no_sales) r.2 [].
Proof.
  refine (insight_monthly_trend_empty_table (L := stable_library)
            (state_with 1%nat no_sales) 1%nat no_sales "MonthStart"
            "TotalSales" (DateCol []) [] [] _ _ _ _ _ _ _).
  - reflexivity.
  - refine (bool_decide_unpack _ _). vm_compute. exact I.
  - reflexivity.
  - reflexivity.
  - reflexivity.
  - discriminate.
  - reflexivity.
Defined.

(** X7: when the row label of the highest month is carried by another row
    as well (as after stacking tables), [d.loc] returns a frame for it and
    [insight_monthly_trend] raises [AttributeError] where it formats the
    highest month; nothing is displayed. *)
Theorem insight_monthly_trend_duplicate_peak_label
    {L : Library} {HL : LibraryOk L} s df t date_col value_col c ds vals
    i_peak v_peak j label :
  heap s !! df = Some t →
  wf_frame t →
  columns t !! date_col = Some c →
  coerce_dates c = Some (Some <$> ds) →
  date_col ≠ value_col →
  columns t !! value_col = Some (IntCol vals) →
  first_extreme id vals i_peak v_peak →
  index t !! i_peak = Some label →
  index t !! j = Some label →
  j ≠ i_peak →
  let r := insight_monthly_trend df date_col value_col s in
  r.1 = Raise (AttributeError "'Series' object has no attribute 'strftime'") ∧
  emitted s r.2 [].
Proof.
  intros Hdf Hwf Hc Hds Hne Hvals Hpeak Hlabel Hlabel' Hj.
  assert (length vals = nrows t) as Hlen_vals by apply (Hwf _ _ Hvals).
  assert (length ds = nrows t) as Hlen_ds.
  { rewrite <-(Hwf _ _ Hc), <-(coerce_dates_length _ _ Hds).
    by rewrite length_fmap. }
  assert (vals ≠ []) as Hnonempty.
  { destruct Hpeak as [Hi _]. by destruct vals. }
  assert (0 < nrows t)%nat as Hrows.
  { rewrite <-Hlen_vals. destruct vals; [done|simpl; lia]. }
  destruct (argbest_first_extreme id Z.gtb vals)
    as (i_peak' & v_peak' & Hargmax & Hpeak'); [intros x y; apply Z.gtb_ltb|done|].
  assert (i_peak' = i_peak) as -> by by eapply first_extreme_unique.
  destruct (argbest_first_extreme Z.opp Z.ltb vals)
    as (i_low & v_low & Hargmin & Hlow_spec); [intros x y|done|].
  { destruct (Z.ltb_spec x y), (Z.ltb_spec (- y) (- x)); lia. }
  destruct (lookup_lt_is_Some_2 (index t) i_low) as [l_low Hl_low].
  { destruct Hlow_spec as [Hi%lookup_lt_Some _]. unfold nrows in *. lia. }
  destruct (lookup_lt_is_Some_2 vals 0) as [v_first Hv_first]; [lia|].
  destruct (lookup_lt_is_Some_2 vals (nrows t - 1)) as [v_last Hv_last]; [lia|].
  destruct (lookup_lt_is_Some_2 ds 0) as [d_first Hd_first]; [lia|].
  destruct (lookup_lt_is_Some_2 ds (nrows t - 1)) as [d_last Hd_last]; [lia|].
  unfold insight_monthly_trend, idxmax, idxmin, emitted. simpl. run.
  set (d := fresh (dom (heap s))).
  set (t' := {| index := index t;
                columns := <[date_col:=DateCol (Some <$> ds)]> (columns t) |}).
  set (s' := {| heap := <[d:=t']> (<[d:=t]> (heap s)); trace := trace s |}).
  assert (heap s' !! d = Some t') as Hd by apply lookup_insert_eq.
  assert (columns t' !! date_col = Some (DateCol (Some <$> ds))) as Hdates
    by apply lookup_insert_eq.
  assert (columns t' !! value_col = Some (IntCol vals)) as Hvalues.
  { simpl. by rewrite lookup_insert_ne. }
  assert (0 < nrows t')%nat as Hrows' by done.
  change (nrows t') with (nrows t) in Hrows'.
  destruct (loc_duplicate d label s' t' i_peak j) as [ps Hloc_peak]; [done..|].
  destruct (loc_returns d l_low s' t' i_low) as [r_low Hloc_low]; [done..|].
  erewrite bind_Return by (by eapply getitem_run).
  erewrite bind_Return by (by eapply idx_extreme_run).
  erewrite bind_Return by exact Hloc_peak.
  erewrite bind_Return by (by eapply getitem_run).
  erewrite bind_Return by (by eapply idx_extreme_run).
  erewrite bind_Return by exact Hloc_low.
  erewrite bind_Return by (by eapply iloc_first).
  erewrite bind_Return by (by eapply row_getitem_run, row_at_date).
  erewrite bind_Return by reflexivity.
  erewrite bind_Return by (by eapply iloc_last).
  erewrite bind_Return by (by eapply row_getitem_run, row_at_date).
  erewrite bind_Return by reflexivity.
  erewrite bind_Return by (by eapply iloc_first).
  erewrite bind_Return by (by eapply row_getitem_run, row_at_int).
  erewrite bind_Return by reflexivity.
  erewrite bind_Return by (by eapply iloc_last).
  erewrite bind_Return by (by eapply row_getitem_run, row_at_int).
  erewrite bind_Return by reflexivity.
  split; [done|]. by rewrite app_nil_r.
Qed.

Lemma insight_monthly_trend_duplicate_peak_label_witness :
  let r := insight_monthly_trend (L := stable_library) 1%nat "MonthStart"
             "TotalSales" (state_with 1%nat stacked_sales) in
  r.1 = Raise (AttributeError "'Series' object has no attribute 'strftime'") ∧
  emitted (state_with 1%nat stacked_sales) r.2 [].
Proof.
  refine (insight_monthly_trend_duplicate_peak_label (L := stable_library)
            (state_with 1%nat stacked_sales) 1%nat stacked_sales "MonthStart"
            "TotalSales"
            (DateCol [Some (month_start 2024 1); Some (month_start 2024 2);
                      Some (month_start 2024 3); Some (month_start 2024 4)])
            [month_start 2024 1; month_start 2024 2; month_start 2024 3;
             month_start 2024 4]
            [100; 150; 90; 200] 3%nat 200 1%nat 1 _ _ _ _ _ _ _ _ _ _).
  - reflexivity.
  - refine (bool_decide_unpack _ _). vm_compute. exact I.
  - reflexivity.
  - reflexivity.
  - discriminate.
  - reflexivity.
  - split_and!; [reflexivity| |].
    + intros w Hw. unfold id.
      repeat (apply elem_of_cons in Hw as [->|Hw]; [lia|]).
      by apply elem_of_nil in Hw.
    + intros [|[|[|?]]] w Hlt Hw; simpl in Hw; simplify_eq; unfold id; lia.
  - reflexivity.
  - reflexivity.
  - lia.
Defined.

(** X8: when the date of the first row is missing ([NaT], [None] or an
    int64 minimum before coercion), [insight_monthly_trend] raises the
    [ValueError] of [NaT.strftime] where it formats the start month, and
    displays nothing. *)
Theorem insight_monthly_trend_first_date_missing
    {L : Library} {HL : LibraryOk L} s df t date_col value_col c dates vals :
  heap s !! df = Some t →
  wf_frame t →
  columns t !! date_col = Some c →
  coerce_dates c = Some dates →
  dates !! 0%nat = Some None →
  date_col ≠ value_col →
  columns t !! value_col = Some (IntCol vals) →
  let r := insight_monthly_trend df date_col value_col s in
  r.1 = Raise (ValueError "NaTType does not support strftime") ∧
  emitted s r.2 [].
Proof.
  intros Hdf Hwf Hc Hdates Hfirst Hne Hvals.
  assert (length vals = nrows t) as Hlen_vals by apply (Hwf _ _ Hvals).
  assert (0 < nrows t)%nat as Hrows.
  { rewrite <-(Hwf _ _ Hc), <-(coerce_dates_length _ _ Hdates).
    by apply lookup_lt_Some in Hfirst. }
  assert (vals ≠ []) as Hnonempty.
  { intros ->. simpl in Hlen_vals. lia. }
  destruct (argbest_first_extreme id Z.gtb vals)
    as (i_peak & v_peak & Hargmax & Hpeak); [intros x y; apply Z.gtb_ltb|done|].
  destruct (argbest_first_extreme Z.opp Z.ltb vals)
    as (i_low & v_low & Hargmin & Hlow); [intros x y|done|].
  { destruct (Z.ltb_spec x y), (Z.ltb_spec (- y) (- x)); lia. }
  destruct (lookup_lt_is_Some_2 (index t) i_peak) as [l_peak Hl_peak].
  { destruct Hpeak as [Hi%lookup_lt_Some _]. unfold nrows in *. lia. }
  destruct (lookup_lt_is_Some_2 (index t) i_low) as [l_low Hl_low].
  { destruct Hlow as [Hi%lookup_lt_Some _]. unfold nrows in *. lia. }
  unfold insight_monthly_trend, idxmax, idxmin, emitted. simpl. run.
  set (d := fresh (dom (heap s))).
  set (t' := {| index := index t;
                columns := <[date_col:=DateCol dates]> (columns t) |}).
  set (s' := {| heap := <[d:=t']> (<[d:=t]> (heap s)); trace := trace s |}).
  assert (heap s' !! d = Some t') as Hd by apply lookup_insert_eq.
  assert (columns t' !! value_col = Some (IntCol vals)) as Hvalues.
  { simpl. by rewrite lookup_insert_ne. }
  assert (row_at t' 0 !! date_col = Some NaT) as Hrow.
  { eapply row_at_lookup; [apply lookup_insert_eq|].
    simpl. by rewrite list_lookup_fmap, Hfirst. }
  assert (0 < nrows t')%nat as Hrows' by done.
  destruct (loc_returns d l_peak s' t' i_peak) as [r_peak Hloc_peak]; [done..|].
  destruct (loc_returns d l_low s' t' i_low) as [r_low Hloc_low]; [done..|].
  erewrite bind_Return by (by eapply getitem_run).
  erewrite bind_Return by (by eapply idx_extreme_run).
  erewrite bind_Return by exact Hloc_peak.
  erewrite bind_Return by (by eapply getitem_run).
  erewrite bind_Return by (by eapply idx_extreme_run).
  erewrite bind_Return by exact Hloc_low.
  erewrite bind_Return by (by eapply iloc_first).
  erewrite bind_Return by (by eapply row_getitem_run).
  split; [done|]. by rewrite app_nil_r.
Qed.

Lemma insight_monthly_trend_first_date_missing_witness :
  let r := insight_monthly_trend (L := stable_library) 1%nat "MonthStart"
             "TotalSales" (state_with 1%nat sales_without_first_month) in
  r.1 = Raise (ValueError "NaTType does not support strftime") ∧
  emitted (state_with 1%nat sales_without_first_month) r.2 [].
Proof.
  refine (insight_monthly_trend_first_date_missing (L := stable_library)
            (state_with 1%nat sales_without_first_month) 1%nat
            sales_without_first_month "MonthStart" "TotalSales"
            (DateCol [None; Some (month_start 2024 2); Some (month_start 2024 3)])
            [None; Some (month_start 2024 2); Some (month_start 2024 3)]
            [100; 150; 90] _ _ _ _ _ _ _).
  - reflexivity.
  - refine (bool_decide_unpack _ _). vm_compute. exact I.
  - reflexivity.
  - reflexivity.
  - reflexivity.
  - discriminate.
  - reflexivity.
Defined.



Lemma float_of_int_exact z : Z.abs z < 2 ^ 53 → float_of_int z = z.
Proof.
  intros Hz. unfold float_of_int.
  by destruct (Z.ltb_spec (Z.abs z) (2 ^ 53)) as [_|?]; [|lia].
Qed.



(** ** Charts that succeed *)

(** X11: without [sort_by] ([None] or the empty string) [bar_vertical]
    needs the columns [x] and [y] only and draws the bars in the row order
    of the table, labelled with the column names unless labels are
    given. *)
Theorem bar_vertical_unsorted_keeps_row_order
    {L : Library} s df t x y title xlabel ylabel sort_by ascending figsize
    rotate_x cx cy :
  heap s !! df = Some t →
  truthy sort_by = false →
  columns t !! x = Some cx →
  columns t !! y = Some cy →
  let r := bar_vertical df x y title xlabel ylabel sort_by ascending figsize
             rotate_x s in
  r.1 = Return tt ∧
  emitted s r.2
    [plt_figure figsize;
     ax_bar (astype_str {| s_index := index t; s_values := cx |}) cy;
     ax_set_title title;
     ax_set_xlabel (or_else xlabel x);
     ax_set_ylabel (or_else ylabel y);
     plt_xticks rotate_x; plt_tight_layout; plt_show].
Proof.
  intros Hdf Hsort Hx Hy. unfold bar_vertical, emitted. rewrite Hsort. run.
  split; [done|]. by rewrite <-!app_assoc.
Qed.

Lemma bar_vertical_unsorted_keeps_row_order_witness :
  let r := bar_vertical (L := stable_library) 1%nat "Territory" "Sales"
             "Sales by territory" None (Some "") (Some "") true (10, 5) 0
             (state_with 1%nat tied_sales) in
  r.1 = Return tt ∧
  emitted (state_with 1%nat tied_sales) r.2
    [plt_figure (10, 5);
     ax_bar ["Canada"; "France"; "Germany"] (IntCol [70; 70; 90]);
     ax_set_title "Sales by territory";
     ax_set_xlabel "Territory";
     ax_set_ylabel "Sales";
     plt_xticks 0; plt_tight_layout; plt_show].
Proof.
  refine (bar_vertical_unsorted_keeps_row_order (L := stable_library)
            (state_with 1%nat tied_sales) 1%nat tied_sales "Territory" "Sales"
            "Sales by territory" None (Some "") (Some "") true (10, 5) 0
            (ObjCol [Some "Canada"; Some "France"; Some "Germany"])
            (IntCol [70; 70; 90]) _ _ _ _); reflexivity.
Defined.

(** X12: [bar_horizontal] with [sort_desc=False] draws the categories in
    ascending order of the value column [x] (missing values last), and
    still inverts the category axis. *)
Theorem bar_horizontal_ascending
    {L : Library} {HL : LibraryOk L} s df t x y title xlabel ylabel figsize
    value cy :
  heap s !! df = Some t →
  wf_frame t →
  columns t !! x = Some value →
  columns t !! y = Some cy →
  ∃ p, p ≡ₚ seq 0 (nrows t) ∧
       col_sorted true (gather_col value p) ∧
       let r := bar_horizontal df x y title xlabel ylabel false figsize s in
       r.1 = Return tt ∧
       emitted s r.2
         [plt_figure figsize;
          ax_barh (astype_str (series_at t cy p)) (gather_col value p);
          ax_invert_yaxis;
          ax_set_title title;
          ax_set_xlabel (or_else xlabel x);
          ax_set_ylabel (or_else ylabel y);
          plt_tight_layout; plt_show].
Proof.
  intros Hdf Hwf Hx Hy. exists (col_nargsort value true). split_and!.
  - rewrite col_nargsort_Permutation. by rewrite (Hwf _ _ Hx).
  - apply col_nargsort_sorted.
  - unfold bar_horizontal, emitted. simpl. run.
    split; [done|]. by rewrite <-!app_assoc.
Qed.

Lemma bar_horizontal_ascending_witness :
  ∃ p, p ≡ₚ seq 0 3 ∧
       col_sorted true (gather_col (IntCol [5; 3; 4]) p) ∧
       let r := bar_horizontal (L := stable_library) 1%nat "Orders" "Territory"
                  "Orders by territory" None None false (10, 6)
                  (state_with 1%nat tied_sales) in
       r.1 = Return tt ∧
       emitted (state_with 1%nat tied_sales) r.2
         [plt_figure (10, 6);
          ax_barh
            (astype_str (L := stable_library)
               (series_at tied_sales
                  (ObjCol [Some "Canada"; Some "France"; Some "Germany"]) p))
            (gather_col (IntCol [5; 3; 4]) p);
          ax_invert_yaxis;
          ax_set_title "Orders by territory";
          ax_set_xlabel "Orders";
          ax_set_ylabel "Territory";
          plt_tight_layout; plt_show].
Proof.
  refine (bar_horizontal_ascending (L := stable_library)
            (state_with 1%nat tied_sales) 1%nat tied_sales "Orders" "Territory"
            "Orders by territory" None None (10, 6) (IntCol [5; 3; 4])
            (ObjCol [Some "Canada"; Some "France"; Some "Germany"]) _ _ _ _).
  - reflexivity.
  - refine (bool_decide_unpack _ _). vm_compute. exact I.
  - reflexivity.
  - reflexivity.
Defined.

(** X13: [scatter_plot] plots the two columns as they are, in row order;
    it makes no copy and no new frame: the heap after the call is the heap
    before it. *)
Theorem scatter_plot_plots_columns_as_given
    s df t x y title xlabel ylabel figsize alpha cx cy :
  heap s !! df = Some t →
  columns t !! x = Some cx →
  columns t !! y = Some cy →
  let r := scatter_plot df x y title xlabel ylabel figsize alpha s in
  r.1 = Return tt ∧
  heap r.2 = heap s ∧
  emitted s r.2
    [plt_figure figsize;
     ax_scatter cx cy alpha;
     ax_set_title title;
     ax_set_xlabel (or_else xlabel x);
     ax_set_ylabel (or_else ylabel y);
     plt_tight_layout; plt_show].
Proof.
  intros Hdf Hx Hy. unfold scatter_plot, emitted. simpl. run.
  split_and!; [done..|]. by rewrite <-!app_assoc.
Qed.

Lemma scatter_plot_plots_columns_as_given_witness :
  let r := scatter_plot 1%nat "Orders" "Sales"
             "Sales against orders" None None (10, 6) (7 # 10)
             (state_with 1%nat tied_sales) in
  r.1 = Return tt ∧
  heap r.2 = heap (state_with 1%nat tied_sales) ∧
  emitted (state_with 1%nat tied_sales) r.2
    [plt_figure (10, 6);
     ax_scatter (IntCol [5; 3; 4]) (IntCol [70; 70; 90]) (7 # 10);
     ax_set_title "Sales against orders";
     ax_set_xlabel "Orders";
     ax_set_ylabel "Sales";
     plt_tight_layout; plt_show].
Proof.
  refine (scatter_plot_plots_columns_as_given
            (state_with 1%nat tied_sales) 1%nat tied_sales "Orders" "Sales"
            "Sales against orders" None None (10, 6) (7 # 10)
            (IntCol [5; 3; 4]) (IntCol [70; 70; 90]) _ _ _); reflexivity.
Defined.

(** The loop of [grouped_bar_wide], when every column is there: one series
    of bars for each column, in the order of the columns. *)
Lemma grouped_bars_run {L : Library} d t x_idx width
    (pairs : list (string * string)) (cs : list column) :
  Forall2 (λ col_lab c, columns t !! col_lab.1 = Some c) pairs cs →
  ∀ start s,
    heap s !! d = Some t →
    for_enumerate start pairs (λ i col_lab,
      sc ← getitem d col_lab.1;
      emit (ax_bar_at
              ((λ q, Qred (q + inject_Z (Z.of_nat i) * width)%Q) <$> x_idx)
              (s_values sc) width col_lab.2)) s
    = (Return tt,
       {| heap := heap s;
          trace := trace s ++
            (bar_series x_idx width <$>
               zip (seq start (length cs)) (zip cs pairs.*2)) |}).
Proof.
  induction 1 as [|[col lab] c pairs cs Hc _ IH]; intros start s Hd.
  { simpl. rewrite app_nil_r. by destruct s. }
  simpl in Hc. cbn [for_enumerate].
  erewrite bind_Return; last first.
  { erewrite bind_Return by (by eapply getitem_run). reflexivity. }
  rewrite IH by exact Hd. simpl. by rewrite <-app_assoc.
Qed.



(** ** Nothing is shown before the end *)

Section quiet.
Context {L : Library}.

Lemma quiet_ret {A} (a : A) : quiet (mret a).
Proof. by intros s. Qed.

Lemma quiet_raise {A} e : quiet (raise (A := A) e).
Proof. by intros s. Qed.

Lemma quiet_bind {A B} (m : M A) (k : A → M B) :
  quiet m → (∀ a, quiet (k a)) → quiet (m ≫= k).
Proof.
  intros Hm Hk s. rewrite bind_run. specialize (Hm s).
  destruct (m s) as [[a|e] s1]; simpl in *; [|done].
  by rewrite Hk.
Qed.

Lemma quiet_deref d : quiet (deref d).
Proof. intros s. unfold deref. by destruct (heap s !! d). Qed.

Lemma quiet_alloc t : quiet (alloc t).
Proof. by intros s. Qed.

Lemma quiet_store d t : quiet (store d t).
Proof. by intros s. Qed.

Lemma quiet_copy df : quiet (copy df).
Proof. apply quiet_bind; [apply quiet_deref|intros; apply quiet_alloc]. Qed.

Lemma quiet_getitem d col : quiet (getitem d col).
Proof.
  apply quiet_bind; [apply quiet_deref|intros t].
  destruct (columns t !! col); [apply quiet_ret|apply quiet_raise].
Qed.

Lemma quiet_setitem d col v : quiet (setitem d col v).
Proof. apply quiet_bind; [apply quiet_deref|intros; apply quiet_store]. Qed.

Lemma quiet_sort_values d by_ ascending : quiet (sort_values d by_ ascending).
Proof.
  apply quiet_bind; [apply quiet_deref|intros t].
  destruct (columns t !! by_); [apply quiet_alloc|apply quiet_raise].
Qed.

Lemma quiet_to_datetime v : quiet (to_datetime v).
Proof.
  unfold to_datetime.
  destruct (coerce_dates (s_values v)); [apply quiet_ret|apply quiet_raise].
Qed.

Lemma quiet_idx_extreme want_max v : quiet (idx_extreme want_max v).
Proof.
  apply quiet_bind.
  - unfold col_argbest. destruct (s_values v) as [xs|xs|xs]; simpl;
      try apply quiet_raise;
      match goal with
      | |- context [argbest ?gt ?i ?b ?l] => destruct (argbest gt i b l)
      end; first [apply quiet_ret|apply quiet_raise].
  - intros i. destruct (s_index v !! i); [apply quiet_ret|apply quiet_raise].
Qed.

Lemma quiet_loc d label : quiet (loc_ d label).
Proof.
  apply quiet_bind; [apply quiet_deref|intros t].
  destruct (positions_of label (index t)) as [|i [|j ps]];
    first [apply quiet_ret|apply quiet_raise].
Qed.

Lemma quiet_iloc d i : quiet (iloc d i).
Proof.
  apply quiet_bind; [apply quiet_deref|intros t]. simpl.
  repeat destruct (decide _); first [apply quiet_ret|apply quiet_raise].
Qed.

Lemma quiet_row_getitem row col : quiet (row_getitem row col).
Proof.
  unfold row_getitem. destruct (row !! col); [apply quiet_ret|apply quiet_raise].
Qed.

Lemma quiet_float v : quiet (float_ v).
Proof. destruct v; first [apply quiet_ret|apply quiet_raise]. Qed.

Lemma quiet_fmt_month v : quiet (_fmt_month v).
Proof.
  destruct v as [z|str| |t|]; simpl; try apply quiet_raise.
  - destruct (decide _); [apply quiet_raise|apply quiet_ret].
  - destruct (parse_datetimes [Some str]) as [[|[t|] [|? ?]]|];
      first [apply quiet_ret|apply quiet_raise].
  - apply quiet_ret.
Qed.

Lemma quiet_loc_fmt_month r col : quiet (loc_fmt_month r col).
Proof.
  destruct r; simpl; [|apply quiet_raise].
  apply quiet_bind; [apply quiet_row_getitem|intros; apply quiet_fmt_month].
Qed.

Lemma quiet_loc_float r col : quiet (loc_float r col).
Proof.
  destruct r; simpl; [|apply quiet_raise].
  apply quiet_bind; [apply quiet_row_getitem|intros; apply quiet_float].
Qed.

Lemma displays_bind {A} (m : M A) (k : A → M unit) :
  quiet m → (∀ a, displays_text_on_success (k a)) →
  displays_text_on_success (m ≫= k).
Proof.
  intros Hm Hk s. unfold emitted. rewrite bind_run. specialize (Hm s).
  destruct (m s) as [[a|e] s1]; simpl in *.
  - rewrite <-Hm. apply Hk.
  - by rewrite Hm, app_nil_r.
Qed.

Lemma displays_emit text : displays_text_on_success (emit (display_markdown text)).
Proof. intros s. by exists text. Qed.

Lemma nothing_shown_app evs1 evs2 :
  nothing_shown evs1 → nothing_shown evs2 → nothing_shown (evs1 ++ evs2).
Proof.
  intros [Hs1 Hd1] [Hs2 Hd2].
  split; [|intros text]; rewrite elem_of_app; intros [Hin|Hin];
    revert Hin; first [apply Hs1|apply Hs2|apply Hd1|apply Hd2].
Qed.

Lemma nothing_shown_one e : on_screen e = false → nothing_shown [e].
Proof.
  intros He. split; [|intros text]; intros Hin;
    apply list_elem_of_singleton in Hin; by subst.
Qed.

Lemma quiet_offscreen {A} (m : M A) : quiet m → offscreen m.
Proof.
  intros Hm s. exists []. split; [|apply nothing_shown_nil].
  unfold emitted. by rewrite Hm, app_nil_r.
Qed.

Lemma offscreen_emit e : on_screen e = false → offscreen (emit e).
Proof. intros He s. exists [e]. split; [done|by apply nothing_shown_one]. Qed.

Lemma offscreen_bind {A B} (m : M A) (k : A → M B) :
  offscreen m → (∀ a, offscreen (k a)) → offscreen (m ≫= k).
Proof.
  intros Hm Hk s. unfold emitted. rewrite bind_run.
  destruct (Hm s) as (evs1 & Htrace1 & Hevs1). unfold emitted in Htrace1.
  destruct (m s) as [[a|e] s1]; simpl in *; [|by exists evs1].
  destruct (Hk a s1) as (evs2 & Htrace2 & Hevs2). unfold emitted in Htrace2.
  exists (evs1 ++ evs2). split; [|by apply nothing_shown_app].
  by rewrite Htrace2, Htrace1, <-app_assoc.
Qed.

Lemma offscreen_for_enumerate {A} (body : nat → A → M unit) xs :
  (∀ i x, offscreen (body i x)) → ∀ start, offscreen (for_enumerate start xs body).
Proof.
  intros Hbody. induction xs as [|x xs IH]; intros start; simpl.
  - apply quiet_offscreen, (quiet_ret tt).
  - apply offscreen_bind; [apply Hbody|intros _; apply IH].
Qed.

Lemma shows_bind {A} (m : M A) (k : A → M unit) :
  offscreen m → (∀ a, shows_figure_on_success (k a)) →
  shows_figure_on_success (m ≫= k).
Proof.
  intros Hm Hk s. unfold emitted. rewrite bind_run.
  destruct (Hm s) as (evs1 & Htrace1 & Hevs1). unfold emitted in Htrace1.
  destruct (m s) as [[a|e] s1]; simpl in *; [|by exists evs1].
  destruct (Hk a s1) as (evs2 & Htrace2 & Hevs2). unfold emitted in Htrace2.
  exists (evs1 ++ evs2). split; [by rewrite Htrace2, Htrace1, <-app_assoc|].
  destruct (k a s1).1 as [[]|e].
  - destruct Hevs2 as (drawn & -> & Hdrawn). exists (evs1 ++ drawn).
    split; [by rewrite <-app_assoc|by apply nothing_shown_app].
  - by apply nothing_shown_app.
Qed.

Lemma shows_raise e : shows_figure_on_success (raise e).
Proof.
  intros s. exists []. split; [|apply nothing_shown_nil].
  unfold emitted. simpl. by rewrite app_nil_r.
Qed.

Lemma shows_emit_show : shows_figure_on_success (emit plt_show).
Proof.
  intros s. exists [plt_show]. split; [done|].
  exists []. split; [done|apply nothing_shown_nil].
Qed.

End quiet.

(** Steps through a chart: every statement before the last shows
    nothing. *)
Ltac offscreen_step :=
  first
    [ apply offscreen_emit; reflexivity
    | apply quiet_offscreen;
      first [ apply quiet_copy | apply quiet_getitem | apply quiet_setitem
            | apply quiet_sort_values | apply quiet_to_datetime
            | apply quiet_ret ] ].

Ltac shows_figure :=
  repeat first
    [ apply shows_emit_show
    | apply shows_raise
    | apply shows_bind; [offscreen_step|intros ?] ].

(** X15: whatever the table and the arguments, a chart function shows the
    figure with its last call and only when it returns: a call that
    raises, for a missing frame or column, unreadable dates or a wrong
    number of legend labels, may have opened a figure and drawn on it but
    has shown nothing. *)
Theorem charts_show_last_and_only_on_success {L : Library} (df : loc) :
  (∀ x y title xlabel ylabel sort_by ascending figsize rotate_x,
     shows_figure_on_success
       (bar_vertical df x y title xlabel ylabel sort_by ascending figsize
          rotate_x)) ∧
  (∀ x y title xlabel ylabel sort_desc figsize,
     shows_figure_on_success
       (bar_horizontal df x y title xlabel ylabel sort_desc figsize)) ∧
  (∀ date_col value_col title xlabel ylabel month_interval figsize marker,
     shows_figure_on_success
       (line_plot_monthly df date_col value_col title xlabel ylabel
          month_interval figsize marker)) ∧
  (∀ x y_cols title xlabel ylabel legend_title figsize rotate_x y_col_labels,
     shows_figure_on_success
       (grouped_bar_wide df x y_cols title xlabel ylabel legend_title figsize
          rotate_x y_col_labels)) ∧
  (∀ x y title xlabel ylabel figsize alpha,
     shows_figure_on_success
       (scatter_plot df x y title xlabel ylabel figsize alpha)).
Proof.
  split_and!; intros.
  - unfold bar_vertical. apply shows_bind; [offscreen_step|intros d].
    apply shows_bind; [|intros ?; shows_figure].
    destruct (truthy sort_by); offscreen_step.
  - unfold bar_horizontal. shows_figure.
  - unfold line_plot_monthly. shows_figure.
  - unfold grouped_bar_wide. do 2 (apply shows_bind; [offscreen_step|intros ?]).
    simpl. destruct (negb _); [apply shows_raise|].
    apply shows_bind; [offscreen_step|intros ?].
    apply shows_bind; [|intros ?; shows_figure].
    apply offscreen_for_enumerate. intros i col_lab.
    apply offscreen_bind; [offscreen_step|intros ?; offscreen_step].
  - unfold scatter_plot. shows_figure.
Qed.

(** X16: whatever the table, [insight_monthly_trend] displays one
    paragraph when it returns and nothing at all when it raises: every
    lookup, conversion and formatting comes before the one call of
    [display]. *)
Theorem insight_monthly_trend_displays_only_on_success
    {L : Library} (df : loc) (date_col value_col : string) (s : state) :
  let r := insight_monthly_trend df date_col value_col s in
  match r.1 with
  | Return _ => ∃ text, emitted s r.2 [display_markdown text]
  | Raise _ => emitted s r.2 []
  end.
Proof.
  revert s. change (displays_text_on_success
                      (insight_monthly_trend df date_col value_col)).
  unfold insight_monthly_trend.
  repeat first
    [ apply displays_emit
    | apply displays_bind;
      [ first [ apply quiet_copy | apply quiet_getitem | apply quiet_setitem
              | apply quiet_to_datetime | apply quiet_idx_extreme
              | apply quiet_loc | apply quiet_iloc | apply quiet_row_getitem
              | apply quiet_float | apply quiet_fmt_month
              | apply quiet_loc_fmt_month | apply quiet_loc_float ]
      | intros ? ] ].
Qed.

(** ** The conversion to [float] keeps the order *)

Section float_order.

Ltac split_ltb :=
  repeat match goal with
         | |- context [?x <? ?y] => destruct (Z.ltb_spec x y)
         end.

(** Above 2^53 an integer is rounded to a multiple of [2 ^ e] that lies
    between the powers of two around it. *)
Lemma float_of_int_big a :
  2 ^ 53 ≤ a →
  let e := Z.log2 a - 52 in
  let q := a / 2 ^ e in
  let r := a mod 2 ^ e in
  1 ≤ e ∧ 0 < 2 ^ e ∧ 2 ^ 52 ≤ q < 2 ^ 53 ∧
  float_of_int a
  = (if r <? 2 ^ (e - 1) then q
     else if 2 ^ (e - 1) <? r then q + 1
     else if Z.even q then q else q + 1) * 2 ^ e.
Proof.
  intros Ha e q r.
  assert (0 < a) as Hpos by lia.
  assert (53 ≤ Z.log2 a) as Hlog.
  { rewrite <-(Z.log2_pow2 53) by lia. apply Z.log2_le_mono. lia. }
  assert (1 ≤ e) as He by (unfold e; lia).
  assert (0 < 2 ^ e) as Hpow by (apply Z.pow_pos_nonneg; lia).
  destruct (Z.log2_spec a Hpos) as [Hlo Hhi].
  replace (Z.succ (Z.log2 a)) with (53 + e) in Hhi by (unfold e; lia).
  replace (Z.log2 a) with (52 + e) in Hlo by (unfold e; lia).
  rewrite Z.pow_add_r in Hlo, Hhi by lia.
  split_and!; [done|done| | |].
  - unfold q. apply Z.div_le_lower_bound; lia.
  - unfold q. apply Z.div_lt_upper_bound; lia.
  - unfold float_of_int. rewrite Z.abs_eq by lia.
    destruct (Z.ltb_spec a (2 ^ 53)) as [?|_]; [lia|].
    fold e. rewrite Z.shiftr_div_pow2 by lia. fold q.
    rewrite !Z.shiftl_mul_pow2 by lia.
    replace (a - q * 2 ^ e) with r
      by (unfold r, q; rewrite Z.mod_eq by lia; lia).
    rewrite Z.mul_1_l.
    replace (Z.sgn a) with 1 by (symmetry; apply Z.sgn_pos; lia).
    by rewrite Z.mul_1_l.
Qed.

Lemma float_of_int_big_bounds a :
  2 ^ 53 ≤ a →
  2 ^ Z.log2 a ≤ float_of_int a ≤ 2 ^ (Z.log2 a + 1).
Proof.
  intros Ha. destruct (float_of_int_big a Ha) as (He & Hpow & Hq & ->).
  set (e := Z.log2 a - 52) in *. set (q := a / 2 ^ e) in *.
  replace (Z.log2 a + 1) with (53 + e) by (unfold e; lia).
  replace (Z.log2 a) with (52 + e) by (unfold e; lia).
  rewrite !Z.pow_add_r by lia.
  split; (apply Z.mul_le_mono_nonneg_r; [lia|]);
    destruct (Z.even q); split_ltb; lia.
Qed.

Lemma float_of_int_mono_nonneg a b :
  0 ≤ a ≤ b → float_of_int a ≤ float_of_int b.
Proof.
  intros [Ha Hab].
  destruct (Z.lt_ge_cases a (2 ^ 53)) as [Hsmall_a|Hbig_a];
    destruct (Z.lt_ge_cases b (2 ^ 53)) as [Hsmall_b|Hbig_b]; try lia.
  - rewrite !float_of_int_exact by lia. done.
  - rewrite (float_of_int_exact a) by lia.
    pose proof (float_of_int_big_bounds b Hbig_b) as [Hlo _].
    assert (2 ^ 53 ≤ 2 ^ Z.log2 b); [|lia].
    apply Z.pow_le_mono_r; [lia|].
    rewrite <-(Z.log2_pow2 53) by lia. apply Z.log2_le_mono. lia.
  - destruct (Z.eq_dec (Z.log2 a) (Z.log2 b)) as [Heq|Hneq].
    + destruct (float_of_int_big a Hbig_a) as (He & Hpow & Hqa & ->).
      destruct (float_of_int_big b Hbig_b) as (_ & _ & Hqb & ->).
      rewrite <-Heq in *.
      set (e := Z.log2 a - 52) in *.
      pose proof (Z.div_mod a (2 ^ e) ltac:(lia)) as Hda.
      pose proof (Z.div_mod b (2 ^ e) ltac:(lia)) as Hdb.
      pose proof (Z.mod_pos_bound a (2 ^ e) Hpow) as Hra.
      pose proof (Z.mod_pos_bound b (2 ^ e) Hpow) as Hrb.
      pose proof (Z.div_le_mono a b (2 ^ e) Hpow Hab) as Hq.
      apply Z.mul_le_mono_nonneg_r; [lia|].
      destruct (Z.eq_dec (a / 2 ^ e) (b / 2 ^ e)) as [Hsame|Hless].
      * rewrite <-Hsame in *.
        assert (a mod 2 ^ e ≤ b mod 2 ^ e) as Hr by lia.
        destruct (Z.even (a / 2 ^ e)); split_ltb; lia.
      * destruct (Z.even (a / 2 ^ e)); destruct (Z.even (b / 2 ^ e));
          split_ltb; lia.
    + pose proof (float_of_int_big_bounds a Hbig_a) as [_ Hhi].
      pose proof (float_of_int_big_bounds b Hbig_b) as [Hlo _].
      assert (Z.log2 a ≤ Z.log2 b) by (apply Z.log2_le_mono; lia).
      assert (2 ^ (Z.log2 a + 1) ≤ 2 ^ Z.log2 b); [|lia].
      apply Z.pow_le_mono_r; lia.
Qed.

Lemma float_of_int_opp z : float_of_int (- z) = - float_of_int z.
Proof.
  unfold float_of_int. rewrite Z.abs_opp, Z.sgn_opp.
  destruct (_ <? _); lia.
Qed.

Lemma float_of_int_sign z : 0 ≤ z → 0 ≤ float_of_int z.
Proof.
  intros Hz. destruct (Z.lt_ge_cases z (2 ^ 53)) as [Hsmall|Hbig].
  - rewrite float_of_int_exact by lia. done.
  - pose proof (float_of_int_big_bounds z Hbig) as [Hlo _].
    assert (0 < 2 ^ Z.log2 z); [|lia].
    apply Z.pow_pos_nonneg; [lia|apply Z.log2_nonneg].
Qed.

Lemma float_of_int_mono a b : a ≤ b → float_of_int a ≤ float_of_int b.
Proof.
  intros Hab. destruct (Z.le_gt_cases 0 a) as [Ha|Ha].
  - apply float_of_int_mono_nonneg. lia.
  - destruct (Z.le_gt_cases 0 b) as [Hb|Hb].
    + pose proof (float_of_int_sign b Hb).
      pose proof (float_of_int_sign (- a) ltac:(lia)) as Hna.
      rewrite float_of_int_opp in Hna. lia.
    + pose proof (float_of_int_mono_nonneg (- b) (- a) ltac:(lia)) as Hm.
      rewrite !float_of_int_opp in Hm. lia.
Qed.

End float_order.



(** ** Rows that are in order already *)

(** A reordering that leaves a list without duplicates as it is moves
    nothing. *)
Lemma gather_fixes_NoDup {A} (l : list A) (p : list nat) :
  p ≡ₚ seq 0 (length l) → NoDup l → gather l p = l → p = seq 0 (length l).
Proof.
  intros Hp Hnd Hfix. apply list_eq. intros k.
  pose proof (Permutation_seq_bound _ _ Hp) as Hbound.
  pose proof (gather_lookup l p k Hbound) as Hk. rewrite Hfix in Hk.
  assert (length p = length l) as Hlen.
  { by rewrite (Permutation_length Hp), length_seq. }
  destruct (p !! k) as [j|] eqn:Hj; simpl in Hk.
  - assert (k < length l)%nat as Hlt.
    { rewrite <-Hlen. by eapply lookup_lt_Some. }
    destruct (lookup_lt_is_Some_2 l k Hlt) as [x Hx].
    rewrite Hx in Hk. symmetry in Hk.
    rewrite (NoDup_lookup l j k x Hnd Hk Hx).
    symmetry. by apply lookup_seq.
  - apply lookup_ge_None in Hj. symmetry. apply lookup_ge_None.
    rewrite length_seq. lia.
Qed.

Lemma StronglySorted_lt_NoDup (l : list Z) : StronglySorted Z.lt l → NoDup l.
Proof.
  induction 1 as [|x l Hl IH Hx]; constructor; [|done].
  intros Hin. rewrite Forall_forall in Hx. specialize (Hx x Hin). lia.
Qed.

Lemma gather_col_all c : gather_col c (seq 0 (col_length c)) = c.
Proof. destruct c; simpl; by rewrite gather_all. Qed.

(** X18: when the dates of the table are all present and strictly
    increasing already, [line_plot_monthly] plots the rows as they are:
    the coerced dates and the values, in the row order of the table. *)
Theorem line_plot_monthly_keeps_rows_in_date_order
    {L : Library} {HL : LibraryOk L} s df t date_col value_col title xlabel
    ylabel month_interval figsize marker c ds values :
  heap s !! df = Some t →
  wf_frame t →
  columns t !! date_col = Some c →
  coerce_dates c = Some (Some <$> ds) →
  StronglySorted Z.lt ds →
  <[date_col := DateCol (Some <$> ds)]> (columns t) !! value_col = Some values →
  let r := line_plot_monthly df date_col value_col title xlabel ylabel
             month_interval figsize marker s in
  r.1 = Return tt ∧
  emitted s r.2
    [plt_figure figsize;
     plt_plot (DateCol (Some <$> ds)) values marker;
     ax_set_title title;
     ax_set_xlabel xlabel;
     ax_set_ylabel ylabel;
     ax_set_major_locator month_interval;
     ax_set_major_formatter "%Y-%m";
     plt_xticks 45; plt_tight_layout; plt_show].
Proof.
  intros Hdf Hwf Hc Hds Hsorted Hvalues.
  assert (length (Some <$> ds) = nrows t) as Hlen.
  { by rewrite (coerce_dates_length _ _ Hds), (Hwf _ _ Hc). }
  assert (col_length values = nrows t) as Hlen_values.
  { destruct (decide (date_col = value_col)) as [->|Hne].
    - rewrite lookup_insert_eq in Hvalues. by injection Hvalues as <-.
    - rewrite lookup_insert_ne in Hvalues by done. apply (Hwf _ _ Hvalues). }
  assert (col_nargsort (DateCol (Some <$> ds)) true = seq 0 (nrows t)) as Hp.
  { rewrite <-Hlen. apply gather_fixes_NoDup.
    - apply (col_nargsort_Permutation (DateCol (Some <$> ds)) true).
    - apply (NoDup_fmap_2 Some).
      by apply StronglySorted_lt_NoDup.
    - apply (sorted_na_last_unique Z.le).
      + apply (col_nargsort_sorted (DateCol (Some <$> ds)) true).
      + exists ds, 0%nat. split; [by rewrite app_nil_r|].
        eapply StronglySorted_mono; [|done]. intros x y. simpl. lia.
      + apply gather_Permutation.
        apply (col_nargsort_Permutation (DateCol (Some <$> ds)) true). }
  simpl in Hp. unfold line_plot_monthly, emitted. simpl. run.
  rewrite Hp. rewrite <-Hlen at 1. rewrite gather_all.
  rewrite <-Hlen_values, gather_col_all.
  split; [done|]. by rewrite <-!app_assoc.
Qed.

Lemma line_plot_monthly_keeps_rows_in_date_order_witness :
  let r := line_plot_monthly (L := stable_library) 1%nat "MonthStart"
             "TotalSales" "Monthly sales" "Month" "Value" 3 (11, 5) "o"
             (state_with 1%nat (monthly_sales 2024 1)) in
  r.1 = Return tt ∧
  emitted (state_with 1%nat (monthly_sales 2024 1)) r.2
    [plt_figure (11, 5);
     plt_plot
       (DateCol (Some <$> [month_start 2024 1; month_start 2024 2;
                           month_start 2024 3; month_start 2024 4]))
       (IntCol [100; 150; 90; 200]) "o";
     ax_set_title "Monthly sales";
     ax_set_xlabel "Month";
     ax_set_ylabel "Value";
     ax_set_major_locator 3;
     ax_set_major_formatter "%Y-%m";
     plt_xticks 45; plt_tight_layout; plt_show].
Proof.
  refine (line_plot_monthly_keeps_rows_in_date_order (L := stable_library)
            (state_with 1%nat (monthly_sales 2024 1)) 1%nat
            (monthly_sales 2024 1) "MonthStart" "TotalSales" "Monthly sales"
            "Month" "Value" 3 (11, 5) "o"
            (DateCol (Some <$> [month_start 2024 1; month_start 2024 2;
                                month_start 2024 3; month_start 2024 4]))
            [month_start 2024 1; month_start 2024 2; month_start 2024 3;
             month_start 2024 4]
            (IntCol [100; 150; 90; 200]) _ _ _ _ _ _).
  - reflexivity.
  - refine (bool_decide_unpack _ _). vm_compute. exact I.
  - reflexivity.
  - reflexivity.
  - repeat constructor; vm_compute; done.
  - reflexivity.
Defined.
